(** * material-ui: the direction flip of style descriptors and the Slider

    A shallow embedding of two source files of the repository:

    - [utils/styles] ([ensureDirection], [prepareStyles]): the mirroring of
      direction-sensitive style properties under a right-to-left theme;
    - [Slider]: the value/percent state of the slider, its keyboard and drag
      handlers and the document listeners of a drag.

    The first part of the file models the pieces of the JavaScript runtime
    that the two files call: strings, the regular expressions of
    [String.prototype.match], IEEE-754 binary64 numbers with [parseFloat],
    [Number.prototype.toString], [Number.prototype.toFixed] and [Math.round].
    Strings are sequences of code units below 256. *)

From Stdlib Require Import ZArith QArith Qround Qminmax Qabs Floats.
From Stdlib Require Import Ascii String List Lia Lqa.
From Stdlib Require DecimalString.
From stdpp Require Import gmap strings.
Import ListNotations.

Set Default Proof Using "Type".
#[local] Set Warnings "-inexact-float".
#[local] Open Scope string_scope.

(* ===================================================================== *)
(** * Part I: definitions *)
(* ===================================================================== *)

(** ** JavaScript strings *)

Module JsString.

(** [s.indexOf(pat)]: the index of the first occurrence, if any. *)
Definition indexOf (pat s : string) : option nat := String.index 0 pat s.

(** [s.slice(i)] *)
Definition drop (i : nat) (s : string) : string :=
  String.substring i (String.length s - i) s.

(** [s.replace(pat, rep)] with a string pattern: only the first occurrence
    is replaced.  The replacement strings built by the callers below are
    made of a matched prefix, a number and a unit and hold no dollar sign,
    so the replacement patterns of [replace] never apply. *)
Definition replace (pat rep s : string) : string :=
  match indexOf pat s with
  | Some i => String.substring 0 i s ++ rep ++ drop (i + String.length pat) s
  | None => s
  end.

(** Character classes. *)
Definition is_digit (c : ascii) : bool :=
  let n := nat_of_ascii c in (48 <=? n)%nat && (n <=? 57)%nat.

(** [\s] on code units below 256: tab, line feed, vertical tab, form feed,
    carriage return, space and the no-break space. *)
Definition is_space (c : ascii) : bool :=
  let n := nat_of_ascii c in
  ((9 <=? n)%nat && (n <=? 13)%nat) || (n =? 32)%nat || (n =? 160)%nat.

End JsString.

(** ** Regular expressions with capture groups

    The fragment of the pattern language that [reTranslate] and [reSkew]
    use, executed by backtracking as the language prescribes: alternatives
    are tried left to right, quantifiers are greedy, an iteration of a
    quantifier that consumes nothing is rejected. *)

Module Regex.

Inductive regex : Type :=
| Chr (c : ascii)                (* a literal character *)
| Cls (p : ascii -> bool)        (* a character class *)
| Bol                            (* ^ *)
| Eps                            (* the empty pattern *)
| Seq (r1 r2 : regex)
| Alt (r1 r2 : regex)            (* r1|r2 *)
| Opt (r : regex)                (* r? *)
| Star (r : regex)               (* r* *)
| Grp (n : nat) (r : regex).     (* the n-th parenthesis *)

(** [r+] *)
Definition Plus (r : regex) : regex := Seq r (Star r).

(** A literal word. *)
Fixpoint Lit (s : string) : regex :=
  match s with
  | EmptyString => Eps
  | String c EmptyString => Chr c
  | String c s' => Seq (Chr c) (Lit s')
  end.

(** Captures: group number to the span (start, end) of its last match. *)
Definition captures := list (nat * (nat * nat)).

Fixpoint cap_get (n : nat) (c : captures) : option (nat * nat) :=
  match c with
  | [] => None
  | (m, sp) :: c' => if (m =? n)%nat then Some sp else cap_get n c'
  end.

Definition cap_set (n : nat) (sp : nat * nat) (c : captures) : captures :=
  (n, sp) :: c.

(** The groups that occur in a pattern; a quantifier forgets them at the
    start of each iteration. *)
Fixpoint groups (r : regex) : list nat :=
  match r with
  | Seq r1 r2 | Alt r1 r2 => groups r1 ++ groups r2
  | Opt r' | Star r' => groups r'
  | Grp n r' => n :: groups r'
  | _ => []
  end.

Definition cap_clear (gs : list nat) (c : captures) : captures :=
  List.filter (fun e => negb (List.existsb (Nat.eqb (fst e)) gs)) c.

(** A continuation receives the position reached, the rest of the subject
    and the captures so far. *)
Definition cont := nat -> string -> captures -> option (nat * captures).

Definition orelse {A} (x y : option A) : option A :=
  match x with Some _ => x | None => y end.

Fixpoint exec (r : regex) (pos : nat) (rest : string) (c : captures)
         (k : cont) {struct r} : option (nat * captures) :=
  match r with
  | Chr a =>
      match rest with
      | String b rest' => if Ascii.eqb a b then k (S pos) rest' c else None
      | EmptyString => None
      end
  | Cls p =>
      match rest with
      | String b rest' => if p b then k (S pos) rest' c else None
      | EmptyString => None
      end
  | Bol => if (pos =? 0)%nat then k pos rest c else None
  | Eps => k pos rest c
  | Seq r1 r2 =>
      exec r1 pos rest c (fun pos1 rest1 c1 => exec r2 pos1 rest1 c1 k)
  | Alt r1 r2 =>
      orelse (exec r1 pos rest c k) (exec r2 pos rest c k)
  | Opt r' =>
      orelse
        (exec r' pos rest (cap_clear (groups r') c)
           (fun pos1 rest1 c1 =>
              if (pos1 =? pos)%nat then None else k pos1 rest1 c1))
        (k pos rest c)
  | Star r' =>
      (fix loop (fuel : nat) (pos : nat) (rest : string) (c : captures)
         {struct fuel} : option (nat * captures) :=
         match fuel with
         | O => k pos rest c
         | S fuel' =>
             orelse
               (exec r' pos rest (cap_clear (groups r') c)
                  (fun pos1 rest1 c1 =>
                     if (pos1 =? pos)%nat then None
                     else loop fuel' pos1 rest1 c1))
               (k pos rest c)
         end) (S (String.length rest)) pos rest c
  | Grp n r' =>
      exec r' pos rest c
        (fun pos1 rest1 c1 => k pos1 rest1 (cap_set n (pos, pos1) c1))
  end.

(** The match at a given start position. *)
Definition exec_at (r : regex) (s : string) (i : nat)
  : option (nat * captures) :=
  exec r i (JsString.drop i s) [] (fun pos _ c => Some (pos, c)).

(** The leftmost match: start positions are tried from 0 upwards. *)
Fixpoint search (r : regex) (s : string) (i : nat) (fuel : nat)
  : option (nat * nat * captures) :=
  match exec_at r s i with
  | Some (e, c) => Some (i, e, c)
  | None =>
      match fuel with
      | O => None
      | S fuel' => search r s (S i) fuel'
      end
  end.

(** The array that [s.match(r)] returns for a pattern without the global
    flag: entry 0 is the matched text, entry [n] the text of group [n], or
    [None] (undefined) for a group that took no part in the match. *)
Definition span_text (s : string) (sp : nat * nat) : string :=
  String.substring (fst sp) (snd sp - fst sp) s.

Definition match_ (r : regex) (ngroups : nat) (s : string)
  : option (list (option string)) :=
  match search r s 0 (String.length s) with
  | Some (i, e, c) =>
      Some (Some (span_text s (i, e))
              :: List.map (fun n => option_map (span_text s) (cap_get n c))
                   (List.seq 1 ngroups))
  | None => None
  end.

End Regex.

(** ** JavaScript numbers: IEEE-754 binary64

    Arithmetic is Rocq's primitive binary64 arithmetic.  The conversions
    between numbers and decimal text are computed exactly, on the integer
    mantissa and exponent of a number. *)

Module JsNumber.

#[local] Open Scope Z_scope.

(** The number nearest to [p/q] (negated when [neg]), ties to the even
    mantissa.  The quotient is taken with at least 64 significant bits and
    a sticky last bit, then rounded to 53 bits. *)
Definition of_ratio (neg : bool) (p : N) (q : positive) : float :=
  match p with
  | N0 => if neg then neg_zero else PrimFloat.zero
  | Npos pp =>
      let k := Z.max 0 (64 + Z.log2 (Zpos q) - Z.log2 (Zpos pp)) in
      let num := Z.shiftl (Zpos pp) k in
      let m := num / Zpos q in
      let sticky := if num mod Zpos q =? 0 then 0 else 1 in
      let m2 := 2 * m + sticky in
      SF2Prim (binary_normalize prec emax (if neg then - m2 else m2)
                 (- k - 1) neg)
  end.

(** The number nearest to [d * 10^e]. *)
Definition of_decimal (neg : bool) (d : N) (e : Z) : float :=
  if 0 <=? e then of_ratio neg (d * 10 ^ Z.to_N e) 1
  else of_ratio neg d (Z.to_pos (10 ^ (- e))).

Definition of_Z (z : Z) : float := of_ratio (z <? 0) (Z.abs_N z) 1.

(** A finite number other than zero as sign, mantissa and exponent:
    its value is [m * 2^e]. *)
Definition decompose (x : float) : option (bool * positive * Z) :=
  match Prim2SF x with
  | S754_finite s m e => Some (s, m, e)
  | _ => None
  end.

(** Numerator and denominator of [m * 2^e]. *)
Definition fraction (m : positive) (e : Z) : Z * Z :=
  if 0 <=? e then (Zpos m * 2 ^ e, 1) else (Zpos m, 2 ^ (- e)).

Definition digits_of_N (n : N) : string :=
  DecimalString.NilZero.string_of_uint (N.to_uint n).

Definition digits_of_Z (z : Z) : string := digits_of_N (Z.to_N z).

(** The least [j] with [z < 10^j]. *)
Definition ndigits (z : Z) : Z :=
  if z <=? 0 then 0 else Z.of_nat (String.length (digits_of_Z z)).

Fixpoint zeros (n : nat) : string :=
  match n with O => "" | S n' => String "0" (zeros n') end.

(** *** [Number::toString]

    For a positive finite [x], integers [n], [k], [s] with
    [10^(k-1) <= s < 10^k], such that [s * 10^(n-k)] reads back as [x],
    with [k] as small as possible and, for that [k], [s * 10^(n-k)]
    closest to [x]. *)

(** The candidates with [k] digits when [10^(n-1) <= x < 10^n]: the floor
    and the ceiling of [x / 10^(n-k)]. *)
Definition candidates (x : float) (num den : Z) (n k : Z)
  : option (Z * Z) :=
  let '(a, b) :=
    if 0 <=? k - n then (num * 10 ^ (k - n), den)
    else (num, den * 10 ^ (n - k)) in
  let lo := a / b in
  let hi := lo + 1 in
  let valid (s : Z) : bool :=
    (10 ^ (k - 1) <=? s) && (s <=? 10 ^ k) &&
    PrimFloat.eqb (of_decimal false (Z.to_N s) (n - k)) x in
  let pick_hi := if hi =? 10 ^ k then (10 ^ (k - 1), n + 1) else (hi, n) in
  match valid lo, valid hi with
  | true, true =>
      match 2 * (a mod b) ?= b with
      | Lt => Some (lo, n)
      | Gt => Some pick_hi
      | Eq => if Z.even lo then Some (lo, n) else Some pick_hi
      end
  | true, false => Some (lo, n)
  | false, true => Some pick_hi
  | false, false => None
  end.

Fixpoint shortest (x : float) (num den : Z) (n k : Z) (fuel : nat)
  : Z * Z * Z :=
  match candidates x num den n k with
  | Some (s, n') => (s, k, n')
  | None =>
      match fuel with
      | O => (num / den, k, n)
      | S fuel' => shortest x num den n (k + 1) fuel'
      end
  end.

Definition toString_pos (x : float) : string :=
  match decompose x with
  | None => "NaN"
  | Some (_, m, e) =>
      let '(num, den) := fraction m e in
      let n0 :=
        if den <=? num then ndigits (num / den)
        else 1 - ndigits ((den + num - 1) / num - 1) in
      let '(s, k, n) := shortest x num den n0 1 20 in
      let ds := digits_of_Z s in
      if (k <=? n) && (n <=? 21) then
        ds ++ zeros (Z.to_nat (n - k))
      else if (0 <? n) && (n <=? 21) then
        String.substring 0 (Z.to_nat n) ds ++ "." ++
        JsString.drop (Z.to_nat n) ds
      else if (-6 <? n) && (n <=? 0) then
        "0." ++ zeros (Z.to_nat (- n)) ++ ds
      else
        let ex := n - 1 in
        let exs := (if 0 <=? ex then "+" else "-") ++ digits_of_Z (Z.abs ex) in
        if k =? 1 then ds ++ "e" ++ exs
        else String.substring 0 1 ds ++ "." ++ JsString.drop 1 ds
             ++ "e" ++ exs
  end.

Definition toString (x : float) : string :=
  if is_nan x then "NaN"
  else if is_zero x then "0"
  else if is_infinity x then (if get_sign x then "-Infinity" else "Infinity")
  else if get_sign x then "-" ++ toString_pos (- x)%float
  else toString_pos x.

(** *** [Number.prototype.toFixed]

    [n] is the integer for which [n / 10^f - x] is closest to zero, the
    larger one of two. *)
Definition toFixed (f : nat) (x : float) : string :=
  if is_nan x then "NaN"
  else if negb (abs x <? 1e21)%float then toString x
  else
    let n :=
      match decompose x with
      | None => 0
      | Some (_, m, e) =>
          let '(num, den) := fraction m e in
          (2 * num * 10 ^ Z.of_nat f + den) / (2 * den)
      end in
    let sign := if (x <? 0)%float then "-" else "" in
    let ds := digits_of_Z n in
    let ds := zeros (S f - String.length ds) ++ ds in
    let k := String.length ds in
    match f with
    | O => sign ++ ds
    | _ => sign ++ String.substring 0 (k - f) ds ++ "."
                ++ JsString.drop (k - f) ds
    end.

(** *** [parseFloat] on a string

    The longest prefix, after leading white space, that is a decimal
    literal; [NaN] when there is none. *)
Fixpoint skip_spaces (s : string) : string :=
  match s with
  | String c s' => if JsString.is_space c then skip_spaces s' else s
  | EmptyString => s
  end.

(** Reads decimal digits: their value, their count and the rest. *)
Fixpoint read_digits (s : string) (acc : N) (cnt : nat) : N * nat * string :=
  match s with
  | String c s' =>
      if JsString.is_digit c
      then read_digits s' (10 * acc + (N_of_ascii c - 48))%N (S cnt)
      else (acc, cnt, s)
  | EmptyString => (acc, cnt, s)
  end.

(** The exponent part [e], [e+] or [e-] followed by digits, when complete. *)
Definition read_exponent (s : string) : Z :=
  match s with
  | String c s1 =>
      if Ascii.eqb c "e" || Ascii.eqb c "E" then
        let '(neg, s2) :=
          match s1 with
          | String "+" s2 => (false, s2)
          | String "-" s2 => (true, s2)
          | _ => (false, s1)
          end in
        let '(v, cnt, _) := read_digits s2 0%N 0 in
        match cnt with
        | O => 0
        | _ => if neg then - Z.of_N v else Z.of_N v
        end
      else 0
  | EmptyString => 0
  end.

Definition parseFloat (s : string) : float :=
  let s := skip_spaces s in
  let '(neg, s) :=
    match s with
    | String "+" s' => (false, s')
    | String "-" s' => (true, s')
    | _ => (false, s)
    end in
  if String.prefix "Infinity" s then
    (if neg then neg_infinity else infinity)
  else
    let '(ip, icnt, s1) := read_digits s 0%N 0 in
    let '(fp, fcnt, s2) :=
      match s1 with
      | String "." s1' => read_digits s1' ip 0
      | _ => (ip, O, s1)
      end in
    match (icnt + fcnt)%nat with
    | O => nan
    | _ =>
        let e := read_exponent s2 - Z.of_nat fcnt in
        (* beyond these bounds every literal is an infinity or a zero *)
        if 400 <? e + Z.of_nat (icnt + fcnt) then
          (if (fp =? 0)%N then of_ratio neg 0 1
           else if neg then neg_infinity else infinity)
        else if e + Z.of_nat (icnt + fcnt) <? -400 then of_ratio neg 0 1
        else of_decimal neg fp e
    end.

(** *** [Math.round], [Math.max], [Math.min], [isNaN] *)

(** The integer closest to [x], the one towards plus infinity of two. *)
Definition Math_round (x : float) : float :=
  match decompose x with
  | None => x
  | Some (s, m, e) =>
      if 0 <=? e then x
      else
        let den := 2 ^ (- e) in
        let num := if s then Zneg m else Zpos m in
        let n := (2 * num + den) / (2 * den) in
        if n =? 0 then (if s then neg_zero else PrimFloat.zero) else of_Z n
  end.

Definition Math_max (a b : float) : float :=
  if is_nan a || is_nan b then nan
  else if (a <? b)%float then b
  else if (b <? a)%float then a
  else if get_sign a then b else a.

Definition Math_min (a b : float) : float :=
  if is_nan a || is_nan b then nan
  else if (a <? b)%float then a
  else if (b <? a)%float then b
  else if get_sign a then a else b.

Definition isNaN (x : float) : bool := is_nan x.

End JsNumber.

(** ** JavaScript values *)

Module Js.

#[warnings="-register-all"]
Inductive val : Type :=
| VUndefined
| VNull
| VBool (b : bool)
| VNum (x : float)
| VStr (s : string)
| VObj (o : gmap string val).

(** [ToString]; an object of the model is a plain object. *)
Definition ToString (v : val) : string :=
  match v with
  | VUndefined => "undefined"
  | VNull => "null"
  | VBool true => "true"
  | VBool false => "false"
  | VNum x => JsNumber.toString x
  | VStr s => s
  | VObj _ => "[object Object]"
  end.

(** [ToBoolean] *)
Definition truthy (v : val) : bool :=
  match v with
  | VUndefined | VNull => false
  | VBool b => b
  | VNum x => negb (is_nan x || is_zero x)
  | VStr s => negb (String.eqb s "")
  | VObj _ => true
  end.

Definition is_stringy (v : val) : bool :=
  match v with VStr _ | VObj _ => true | _ => false end.

(** [ToNumber] of a value that is not a string or an object. *)
Definition ToNumber_prim (v : val) : float :=
  match v with
  | VNum x => x
  | VNull | VBool false => PrimFloat.zero
  | VBool true => PrimFloat.one
  | _ => nan
  end.

(** The binary [+]: concatenation as soon as one operand is a string (or
    an object, whose primitive value is a string), addition otherwise. *)
Definition add (a b : val) : val :=
  if is_stringy a || is_stringy b then VStr (ToString a ++ ToString b)
  else VNum (ToNumber_prim a + ToNumber_prim b)%float.

(** The global [parseFloat] applies [ToString] to its argument first. *)
Definition parseFloat (v : val) : float :=
  JsNumber.parseFloat (ToString v).

(** [matches[i]] on the array of a match. *)
Definition at_ (matches : list (option string)) (i : nat) : val :=
  match List.nth i matches None with
  | Some s => VStr s
  | None => VUndefined
  end.

End Js.

(** ** [utils/styles]: the direction flip *)

Module Styles.

Import Js Regex.

(** A style descriptor: property name to value. *)
Abbreviation descriptor := (gmap string val).

(** The theme, as far as [ensureDirection] reads it. *)
Record theme : Type := { isRtl : val }.

Definition space : regex := Cls JsString.is_space.
Definition digit : regex := Cls JsString.is_digit.

(** [/((^|\s)translate(3d|X)?\()(\-?[\d]+)/] *)
Definition reTranslate : regex :=
  Seq (Grp 1 (Seq (Grp 2 (Alt Bol space))
             (Seq (Lit "translate")
             (Seq (Opt (Grp 3 (Alt (Lit "3d") (Lit "X"))))
                  (Lit "(")))))
      (Grp 4 (Seq (Opt (Lit "-")) (Plus digit))).

Definition angle_unit : regex := Alt (Lit "deg") (Alt (Lit "rad") (Lit "grad")).

(** [/((^|\s)skew(x|y)?\()\s*(\-?[\d]+)(deg|rad|grad)(,\s*(\-?[\d]+)(deg|rad|grad))?/] *)
Definition reSkew : regex :=
  Seq (Grp 1 (Seq (Grp 2 (Alt Bol space))
             (Seq (Lit "skew")
             (Seq (Opt (Grp 3 (Alt (Lit "x") (Lit "y"))))
                  (Lit "(")))))
 (Seq (Star space)
 (Seq (Grp 4 (Seq (Opt (Lit "-")) (Plus digit)))
 (Seq (Grp 5 angle_unit)
      (Opt (Grp 6 (Seq (Lit ",")
                  (Seq (Star space)
                  (Seq (Grp 7 (Seq (Opt (Lit "-")) (Plus digit)))
                       (Grp 8 angle_unit))))))))).

(** Modelled from the spec: [merge] of [utils/immutability-helper], which
    is not among the source files.  "Later descriptors override earlier
    ones": the result has the keys of both, and on a shared key the value
    of the later descriptor. *)
Definition merge (a b : descriptor) : descriptor := b ∪ a.

(** The message of the duplicate-flip warning. *)
Definition flip_twice_warning : string :=
  "You're calling ensureDirection() on the same style object twice.".

(** Keys and their replacements. *)
Definition flippedAttributes : gmap string string :=
  list_to_map
    [ ("right", "left"); ("left", "right");
      ("marginRight", "marginLeft"); ("marginLeft", "marginRight");
      ("paddingRight", "paddingLeft"); ("paddingLeft", "paddingRight");
      ("borderRight", "borderLeft"); ("borderLeft", "borderRight") ].

Definition flip_key (attribute : string) : string :=
  match flippedAttributes !! attribute with
  | Some key => key
  | None => attribute
  end.

Definition neg (x : float) : val := VNum (- x)%float.

(** The [transform] case.  A value that is not a string has no [match]
    method: the call throws ([None]). *)
Definition flip_transform (v : val) : option val :=
  match v with
  | VStr value =>
      let value :=
        match match_ reTranslate 4 value with
        | Some matches =>
            JsString.replace (ToString (at_ matches 0))
              (ToString (add (at_ matches 1) (neg (parseFloat (at_ matches 4)))))
              value
        | None => value
        end in
      let value :=
        match match_ reSkew 8 value with
        | Some matches =>
            JsString.replace (ToString (at_ matches 0))
              (ToString
                 (* [+] binds tighter than the conditional *)
                 (if truthy (add (add (add (at_ matches 1)
                                         (neg (parseFloat (at_ matches 4))))
                                    (at_ matches 5))
                               (at_ matches 6))
                  then add (add (VStr ",") (neg (parseFloat (at_ matches 7))))
                           (at_ matches 8)
                  else VStr ""))
              value
        | None => value
        end in
      Some (VStr value)
  | _ => None
  end.

(** [value.indexOf(pat) > -1] *)
Definition contains (pat s : string) : bool :=
  match JsString.indexOf pat s with Some _ => true | None => false end.

(** The [transformOrigin] case; [indexOf] exists on strings only. *)
Definition flip_transformOrigin (v : val) : option val :=
  match v with
  | VStr value =>
      if contains "right" value then
        Some (VStr (JsString.replace "right" "left" value))
      else if contains "left" value then
        Some (VStr (JsString.replace "left" "right" value))
      else Some v
  | _ => None
  end.

Definition is_str (v : val) (s : string) : bool :=
  match v with VStr s' => String.eqb s' s | _ => false end.

(** The [switch (attribute)] of the loop body. *)
Definition flip_value (attribute : string) (value : val) : option val :=
  if String.eqb attribute "float" || String.eqb attribute "textAlign" then
    if is_str value "right" then Some (VStr "left")
    else if is_str value "left" then Some (VStr "right")
    else Some value
  else if String.eqb attribute "direction" then
    if is_str value "ltr" then Some (VStr "rtl")
    else if is_str value "rtl" then Some (VStr "ltr")
    else Some value
  else if String.eqb attribute "transform" then flip_transform value
  else if String.eqb attribute "transformOrigin" then flip_transformOrigin value
  else Some value.

(** One round of [Object.keys(style).forEach]: [newStyle[key] = value]. *)
Definition flip_step (attribute : string) (value : val)
           (acc : option descriptor) : option descriptor :=
  match acc with
  | Some newStyle =>
      match flip_value attribute value with
      | Some value' => Some (<[flip_key attribute := value']> newStyle)
      | None => None
      end
  | None => None
  end.

Definition rtl (muiTheme : option theme) : bool :=
  match muiTheme with
  | Some t => truthy (isRtl t)
  | None => false
  end.

Definition lookup_default (style : descriptor) (k : string) : val :=
  match style !! k with Some v => v | None => VUndefined end.

(** [ensureDirection(muiTheme, style)].  [dev] says that
    [process.env.NODE_ENV] is not ['production'].  The result is the list
    of warnings written to the console and the descriptor returned, or
    [None] when the call throws. *)
Definition ensureDirection (dev : bool) (muiTheme : option theme)
           (style : descriptor) : list string * option descriptor :=
  let warnings :=
    if dev && truthy (lookup_default style "didFlip")
    then [flip_twice_warning] else [] in
  let style :=
    if dev then merge {[ "didFlip" := VStr "true" ]} style else style in
  if negb (rtl muiTheme) then (warnings, Some style)
  else (warnings, map_fold flip_step (Some ∅) style).

End Styles.

(** ** [Slider] *)

(** The arithmetic of the slider's numbers.  The component is written once
    against this interface and read at two instances: binary64, which is
    what the program runs on, and the rationals, which is the same code
    under exact arithmetic (no rounding of sums and quotients, no NaN). *)
Class JsArith (num : Type) : Type := {
  n_zero : num;
  n_one : num;
  n_add : num -> num -> num;
  n_sub : num -> num -> num;
  n_mul : num -> num -> num;
  n_div : num -> num -> num;
  n_lt : num -> num -> bool;            (* < *)
  n_seq : num -> num -> bool;           (* === *)
  n_isNaN : num -> bool;                (* isNaN *)
  n_round : num -> num;                 (* Math.round *)
  n_max : num -> num -> num;            (* Math.max *)
  n_min : num -> num -> num;            (* Math.min *)
  n_fixed5 : num -> num;                (* parseFloat(x.toFixed(5)) *)
}.

Declare Scope js_scope.
Declare Scope action_scope.
Delimit Scope js_scope with js.
Infix "+" := n_add : js_scope.
Infix "-" := n_sub : js_scope.
Infix "*" := n_mul : js_scope.
Infix "/" := n_div : js_scope.
Infix "<" := n_lt : js_scope.
Notation "x > y" := (n_lt y x) : js_scope.
Infix "===" := n_seq (at level 70, no associativity) : js_scope.
Notation "x !== y" := (negb (n_seq x y))
  (at level 70, no associativity) : js_scope.

(** Binary64, the numbers of the program. *)
#[export] Instance float_arith : JsArith float := {
  n_zero := PrimFloat.zero;
  n_one := PrimFloat.one;
  n_add := PrimFloat.add;
  n_sub := PrimFloat.sub;
  n_mul := PrimFloat.mul;
  n_div := PrimFloat.div;
  n_lt := PrimFloat.ltb;
  n_seq := PrimFloat.eqb;
  n_isNaN := JsNumber.isNaN;
  n_round := JsNumber.Math_round;
  n_max := JsNumber.Math_max;
  n_min := JsNumber.Math_min;
  n_fixed5 := fun x => JsNumber.parseFloat (JsNumber.toFixed 5 x);
}.

(** Exact arithmetic on the rationals.  [Math.round] is the floor of
    [x + 1/2]; [toFixed(5)] rounds the magnitude to the nearest multiple of
    [1/100000], halves upwards, and reading the text back is exact. *)
Module QArithJs.

Definition Qlt_bool (a b : Q) : bool := negb (Qle_bool b a).

Definition round (x : Q) : Q := inject_Z (Qfloor (x + (1 # 2))%Q).

Definition fixed5_abs (x : Q) : Q :=
  Qmake (Qfloor (x * inject_Z 100000 + (1 # 2))%Q) 100000.

Definition fixed5 (x : Q) : Q :=
  if Qlt_bool x 0 then (- fixed5_abs (- x))%Q else fixed5_abs x.

End QArithJs.

#[export] Instance Q_arith : JsArith Q := {
  n_zero := 0%Q;
  n_one := 1%Q;
  n_add := Qplus;
  n_sub := Qminus;
  n_mul := Qmult;
  n_div := Qdiv;
  n_lt := QArithJs.Qlt_bool;
  n_seq := Qeq_bool;
  n_isNaN := fun _ => false;
  n_round := QArithJs.round;
  n_max := Qmax;
  n_min := Qmin;
  n_fixed5 := QArithJs.fixed5;
}.

Module Props.
(** [this.props], as far as the handlers read them.  [value] and
    [defaultValue] may be undefined. *)
Record t (num : Type) : Type := {
  min : num;
  max : num;
  step : num;
  value : option num;
  defaultValue : option num;
  disabled : bool;
}.
Arguments min {num}. Arguments max {num}. Arguments step {num}.
Arguments value {num}. Arguments defaultValue {num}.
Arguments disabled {num}.
End Props.

Module State.
(** [this.state] *)
Record t (num : Type) : Type := {
  active : bool;
  dragging : bool;
  focused : bool;
  hovered : bool;
  percent : num;
  value : num;
}.
Arguments active {num}. Arguments dragging {num}. Arguments focused {num}.
Arguments hovered {num}. Arguments percent {num}. Arguments value {num}.
End State.

Module Slider.

(** The callbacks that the component registers on the document. *)
Inductive callback : Type :=
| dragHandler | dragEndHandler | dragTouchHandler | dragTouchEndHandler.

Definition callback_eqb (a b : callback) : bool :=
  match a, b with
  | dragHandler, dragHandler | dragEndHandler, dragEndHandler
  | dragTouchHandler, dragTouchHandler
  | dragTouchEndHandler, dragTouchEndHandler => true
  | _, _ => false
  end.

(** A registered listener: event type and callback. *)
Definition listener : Type := string * callback.

Definition listener_eqb (a b : listener) : bool :=
  String.eqb (fst a) (fst b) && callback_eqb (snd a) (snd b).

(** [document.addEventListener(type, cb, false)]: a listener that is
    already registered is not registered twice. *)
Definition addEventListener (type : string) (cb : callback)
           (doc : list listener) : list listener :=
  if List.existsb (listener_eqb (type, cb)) doc then doc
  else (doc ++ [(type, cb)])%list.

(** [document.removeEventListener(type, cb, false)]: nothing happens when
    the listener is not registered. *)
Definition removeEventListener (type : string) (cb : callback)
           (doc : list listener) : list listener :=
  List.filter (fun l => negb (listener_eqb (type, cb) l)) doc.

Section Component.

Context {num : Type} `{JsArith num}.
#[local] Open Scope js_scope.

(** The calls of the callbacks passed as props. *)
Inductive notification : Type :=
| onChange (value : num)
| onDragStart
| onDragStop
| onFocus
| onBlur.

(** The component instance and what it shares with the page: its state,
    the field [dragRunning], the listeners registered on the document,
    the pointer positions captured by the animation-frame callbacks that
    are still to run, and whether the component is mounted. *)
Record world : Type := {
  state : State.t num;
  dragRunning : bool;
  document : list listener;
  frames : list num;
  mounted : bool;
}.

(** The geometry of the track element when a handler runs:
    [getBoundingClientRect().left] and [clientWidth]. *)
Record track : Type := { left : num; clientWidth : num }.

(** A method: the world after the call and the notifications fired, in
    the order of the calls in the source. *)
Definition action : Type := world -> world * list notification.

Definition skip : action := fun w => (w, []).

Definition andThen (a b : action) : action :=
  fun w =>
    let '(w1, n1) := a w in
    let '(w2, n2) := b w1 in
    (w2, (n1 ++ n2)%list).

#[local] Notation "a ;; b" := (andThen a b) : action_scope.
#[local] Open Scope action_scope.

Definition notify (n : notification) : action := fun w => (w, [n]).

(** [this.setState(...)]: the fields named by the call are replaced. *)
Definition setState (f : State.t num -> State.t num) : action :=
  fun w =>
    ({| state := f (state w); dragRunning := dragRunning w;
        document := document w; frames := frames w;
        mounted := mounted w |}, []).

Definition onDocument (f : list listener -> list listener) : action :=
  fun w =>
    ({| state := state w; dragRunning := dragRunning w;
        document := f (document w); frames := frames w;
        mounted := mounted w |}, []).

Definition set_dragRunning (b : bool) : action :=
  fun w =>
    ({| state := state w; dragRunning := b;
        document := document w; frames := frames w;
        mounted := mounted w |}, []).

Definition set_frames (f : list num -> list num) : action :=
  fun w =>
    ({| state := state w; dragRunning := dragRunning w;
        document := document w; frames := f (frames w);
        mounted := mounted w |}, []).

Definition with_value_percent (value percent : num) (s : State.t num)
  : State.t num :=
  {| State.active := State.active s; State.dragging := State.dragging s;
     State.focused := State.focused s; State.hovered := State.hovered s;
     State.percent := percent; State.value := value |}.

Definition with_dragging_active (dragging active : bool) (s : State.t num)
  : State.t num :=
  {| State.active := active; State.dragging := dragging;
     State.focused := State.focused s; State.hovered := State.hovered s;
     State.percent := State.percent s; State.value := State.value s |}.

Definition with_active (active : bool) (s : State.t num) : State.t num :=
  with_dragging_active (State.dragging s) active s.

Definition with_focused (focused : bool) (s : State.t num) : State.t num :=
  {| State.active := State.active s; State.dragging := State.dragging s;
     State.focused := focused; State.hovered := State.hovered s;
     State.percent := State.percent s; State.value := State.value s |}.

Definition with_hovered (hovered : bool) (s : State.t num) : State.t num :=
  {| State.active := State.active s; State.dragging := State.dragging s;
     State.focused := State.focused s; State.hovered := hovered;
     State.percent := State.percent s; State.value := State.value s |}.

(** The initial [state] of the class. *)
Definition initial_state : State.t num :=
  {| State.active := false; State.dragging := false;
     State.focused := false; State.hovered := false;
     State.percent := n_zero; State.value := n_zero |}.

Definition initial_world : world :=
  {| state := initial_state; dragRunning := false; document := [];
     frames := []; mounted := true |}.

Variable props : Props.t num.

Definition componentWillMount : action :=
  let value :=
    match Props.value props with
    | Some value => value
    | None =>
        match Props.defaultValue props with
        | Some d => d
        | None => Props.min props
        end
    end in
  let percent :=
    (value - Props.min props) / (Props.max props - Props.min props) in
  let percent := if n_isNaN percent then n_zero else percent in
  setState (with_value_percent value percent).

Definition setValue (i : num) : action :=
  let percent :=
    (i - Props.min props) / (Props.max props - Props.min props) in
  let percent := if n_isNaN percent then n_zero else percent in
  setState (with_value_percent i percent).

Definition componentWillReceiveProps (nextProps : Props.t num) : action :=
  fun w =>
    match Props.value nextProps with
    | Some value =>
        if negb (State.dragging (state w)) then setValue value w
        else skip w
    | None => skip w
    end.

Definition onDragStart_ : action :=
  setState (with_dragging_active true true) ;; notify onDragStart.

Definition onDragStop_ : action :=
  setState (with_dragging_active false false) ;; notify onDragStop.

Definition onHandleTouchStart : action :=
  onDocument (addEventListener "touchmove" dragTouchHandler) ;;
  onDocument (addEventListener "touchup" dragTouchEndHandler) ;;
  onDocument (addEventListener "touchend" dragTouchEndHandler) ;;
  onDocument (addEventListener "touchcancel" dragTouchEndHandler) ;;
  onDragStart_.

Definition onHandleMouseDown : action :=
  onDocument (addEventListener "mousemove" dragHandler) ;;
  onDocument (addEventListener "mouseup" dragEndHandler) ;;
  onDragStart_.

(** The [action] that a key selects in [onHandleKeyDown]. *)
Inductive key_action : Type := decrease | increase | home | end_.

Definition key_action_of (keycode : string) : option key_action :=
  if String.eqb keycode "page down" || String.eqb keycode "left"
     || String.eqb keycode "down" then Some decrease
  else if String.eqb keycode "page up" || String.eqb keycode "right"
     || String.eqb keycode "up" then Some increase
  else if String.eqb keycode "home" then Some home
  else if String.eqb keycode "end" then Some end_
  else None.

Definition onHandleKeyDown (keycode : string) : action :=
  fun w =>
    let min := Props.min props in
    let max := Props.max props in
    let step := Props.step props in
    match key_action_of keycode with
    | Some action =>
        let '(newValue, newPercent) :=
          match action with
          | decrease =>
              let newValue := n_max min (State.value (state w) - step) in
              (newValue, (newValue - min) / (max - min))
          | increase =>
              let newValue := n_min max (State.value (state w) + step) in
              (newValue, (newValue - min) / (max - min))
          | home => (min, n_zero)
          | end_ => (max, n_one)
          end in
        if State.value (state w) !== newValue then
          (setState (with_value_percent (n_fixed5 newValue) newPercent) ;;
           (fun w' => notify (onChange (State.value (state w'))) w')) w
        else skip w
    | None => skip w
    end.

Definition percentToValue (percent : num) : num :=
  percent * (Props.max props - Props.min props) + Props.min props.

Definition alignValue (val : num) : num :=
  let step := Props.step props in
  let min := Props.min props in
  let alignValue := n_round ((val - min) / step) * step + min in
  n_fixed5 alignValue.

Definition setPercent (percent : num) (callback : action) : action :=
  fun w =>
    let value := alignValue (percentToValue percent) in
    let min := Props.min props in
    let max := Props.max props in
    let alignedPercent := (value - min) / (max - min) in
    if State.value (state w) !== value then
      (setState (with_value_percent value alignedPercent) ;; callback) w
    else skip w.

Definition clearValue : action := setValue (Props.min props).

Definition getValue (w : world) : num := State.value (state w).

Definition getPercent (w : world) : num := State.percent (state w).

Definition updateWithChangeEvent (percent : num) : action :=
  setPercent percent
    (fun w => notify (onChange (State.value (state w))) w).

Definition dragX (t : track) (pos : num) : action :=
  let max := clientWidth t in
  let pos := if pos < n_zero then n_zero
             else if pos > max then max else pos in
  updateWithChangeEvent (pos / max).

Definition onDragUpdate (t : track) (pos : num) : action :=
  fun w =>
    if negb (State.dragging (state w)) then skip w
    else if negb (Props.disabled props) then dragX t pos w
    else skip w.

(** [dragHandler] and [dragTouchHandler]: at most one animation-frame
    callback is requested at a time; it captures the pointer position
    of its event. *)
Definition dragHandler_ (clientX : num) : action :=
  fun w =>
    if dragRunning w then skip w
    else (set_dragRunning true ;; set_frames (fun fs => (fs ++ [clientX])%list)) w.

Definition dragTouchHandler_ (clientX : num) : action :=
  dragHandler_ clientX.

(** The callback passed to [requestAnimationFrame]. *)
Definition frame_callback (t : track) (clientX : num) : action :=
  onDragUpdate t (clientX - left t) ;; set_dragRunning false.

Definition dragEndHandler_ : action :=
  onDocument (removeEventListener "mousemove" dragHandler) ;;
  onDocument (removeEventListener "mouseup" dragEndHandler) ;;
  onDragStop_.

Definition dragTouchEndHandler_ : action :=
  onDocument (removeEventListener "touchmove" dragTouchHandler) ;;
  onDocument (removeEventListener "touchup" dragTouchEndHandler) ;;
  onDocument (removeEventListener "touchend" dragTouchEndHandler) ;;
  onDocument (removeEventListener "touchcancel" dragTouchEndHandler) ;;
  onDragStop_.

Definition handleTouchStart (t : track) (clientX : num) : action :=
  fun w =>
    if negb (Props.disabled props) && negb (State.dragging (state w)) then
      (dragX t (clientX - left t) ;; onHandleTouchStart) w
    else skip w.

Definition handleMouseDown (t : track) (clientX : num) : action :=
  fun w =>
    if negb (Props.disabled props) && negb (State.dragging (state w)) then
      (dragX t (clientX - left t) ;; onHandleMouseDown) w
    else skip w.

Definition handleFocus : action :=
  setState (with_focused true) ;; notify onFocus.

Definition handleBlur : action :=
  setState (fun s => with_active false (with_focused false s)) ;;
  notify onBlur.

Definition handleMouseUp : action :=
  if negb (Props.disabled props) then setState (with_active false)
  else skip.

Definition handleMouseEnter : action := setState (with_hovered true).

Definition handleMouseLeave : action := setState (with_hovered false).

(** The percent that [render] draws: the state's percent, cut to [0, 1]. *)
Definition render_percent (w : world) : num :=
  let percent := State.percent (state w) in
  if percent > n_one then n_one
  else if percent < n_zero then n_zero else percent.

(** *** The component under the events of the page *)

Definition invoke (cb : callback) (clientX : num) : action :=
  match cb with
  | dragHandler => dragHandler_ clientX
  | dragEndHandler => dragEndHandler_
  | dragTouchHandler => dragTouchHandler_ clientX
  | dragTouchEndHandler => dragTouchEndHandler_
  end.

(** An event of type [type] reaches the document: the listeners that
    were registered for it when the dispatch began are called in the
    order of their registration, except those removed meanwhile. *)
Fixpoint dispatch (ls : list listener) (type : string) (clientX : num)
  : action :=
  match ls with
  | [] => skip
  | l :: ls' =>
      (fun w =>
         if String.eqb (fst l) type
            && List.existsb (listener_eqb l) (document w)
         then invoke (snd l) clientX w else skip w) ;;
      dispatch ls' type clientX
  end.

Definition document_dispatch (type : string) (clientX : num) : action :=
  fun w => dispatch (document w) type clientX w.

(** An animation frame: the callbacks requested so far run in order. *)
Fixpoint run_callbacks (t : track) (fs : list num) : action :=
  match fs with
  | [] => skip
  | clientX :: fs' => frame_callback t clientX ;; run_callbacks t fs'
  end.

Definition animation_frame (t : track) : action :=
  fun w => (set_frames (fun _ => []) ;; run_callbacks t (frames w)) w.

(** The class defines no [componentWillUnmount]: unmounting runs no code
    of the component. *)
Definition unmount : action :=
  fun w =>
    ({| state := state w; dragRunning := dragRunning w;
        document := document w; frames := frames w;
        mounted := false |}, []).

End Component.

Arguments world : clear implicits.
Arguments track : clear implicits.
Arguments notification : clear implicits.
Arguments action num : clear implicits.

Section Machine.

Context {num : Type} `{JsArith num}.

(** What can happen to a slider on a page.  The handlers of the handle
    element are attached only when the slider is not disabled. *)
Inductive event : Type :=
| mount
| receive_props (nextProps : Props.t num)
| handle_touchstart
| handle_mousedown
| handle_keydown (keycode : string)
| track_touchstart (t : track num) (clientX : num)
| track_mousedown (t : track num) (clientX : num)
| track_mouseup
| track_mouseenter
| track_mouseleave
| track_focus
| track_blur
| document_event (type : string) (clientX : num)
| frame (t : track num)
| unmounted.

Definition component_event (props : Props.t num) (e : event)
  : action num :=
  match e with
  | mount => componentWillMount props
  | receive_props nextProps => componentWillReceiveProps props nextProps
  | handle_touchstart =>
      if Props.disabled props then skip else onHandleTouchStart
  | handle_mousedown =>
      if Props.disabled props then skip else onHandleMouseDown
  | handle_keydown keycode =>
      if Props.disabled props then skip else onHandleKeyDown props keycode
  | track_touchstart t clientX => handleTouchStart props t clientX
  | track_mousedown t clientX => handleMouseDown props t clientX
  | track_mouseup => handleMouseUp props
  | track_mouseenter => handleMouseEnter
  | track_mouseleave => handleMouseLeave
  | track_focus => handleFocus
  | track_blur => handleBlur
  | _ => skip
  end.

(** One event.  The events of the component's own elements reach it
    only while it is mounted; the document and the animation frames do
    not know about the component. *)
Definition step (pw : Props.t num * world num) (e : event)
  : (Props.t num * world num) * list (notification num) :=
  let '(props, w) := pw in
  match e with
  | unmounted => let '(w', ns) := unmount w in ((props, w'), ns)
  | document_event type clientX =>
      let '(w', ns) := document_dispatch type clientX w in
      ((props, w'), ns)
  | frame t =>
      let '(w', ns) := animation_frame props t w in ((props, w'), ns)
  | receive_props nextProps =>
      if mounted w then
        let '(w', ns) := component_event props e w in ((nextProps, w'), ns)
      else ((props, w), [])
  | _ =>
      if mounted w then
        let '(w', ns) := component_event props e w in ((props, w'), ns)
      else ((props, w), [])
  end.

Fixpoint run (pw : Props.t num * world num) (es : list event)
  : (Props.t num * world num) * list (notification num) :=
  match es with
  | [] => (pw, [])
  | e :: es' =>
      let '(pw1, n1) := step pw e in
      let '(pw2, n2) := run pw1 es' in
      (pw2, (n1 ++ n2)%list)
  end.

End Machine.

Arguments event : clear implicits.

End Slider.

(* ===================================================================== *)
(** * Part II: the notions that the properties are stated with *)
(* ===================================================================== *)

Module StylesSpec.

Import Js Regex Styles.

(** A right-to-left and a left-to-right theme. *)
Definition rtlTheme : option theme := Some {| isRtl := VBool true |}.
Definition ltrTheme : option theme := Some {| isRtl := VBool false |}.

(** The marker that the development mode adds to a descriptor. *)
Definition tag : descriptor := {[ "didFlip" := VStr "true" ]}.

(** A descriptor as [ensureDirection] returns it when nothing is flipped:
    with the marker in development mode, as it is in production. *)
Definition tagged (dev : bool) (style : descriptor) : descriptor :=
  if dev then merge tag style else style.

(** The keys of the bidirectional pairs. *)
Definition pair_keys : list string :=
  [ "right"; "left"; "marginRight"; "marginLeft";
    "paddingRight"; "paddingLeft"; "borderRight"; "borderLeft" ].

Definition is_pair_key (k : string) : bool :=
  List.existsb (String.eqb k) pair_keys.

(** The mirror of a pair key, as the table of the spec has it. *)
Definition mirror (k : string) : string :=
  if String.eqb k "right" then "left"
  else if String.eqb k "left" then "right"
  else if String.eqb k "marginRight" then "marginLeft"
  else if String.eqb k "marginLeft" then "marginRight"
  else if String.eqb k "paddingRight" then "paddingLeft"
  else if String.eqb k "paddingLeft" then "paddingRight"
  else if String.eqb k "borderRight" then "borderLeft"
  else if String.eqb k "borderLeft" then "borderRight"
  else k.

Definition matches (r : regex) (n : nat) (s : string) : bool :=
  match match_ r n s with Some _ => true | None => false end.







(** What the loop of [ensureDirection] computes: the entry of [k] moves to
    [flip_key k] with its value flipped; the loop throws exactly when the
    value of some entry cannot be flipped. *)
Definition loop_spec (r : option descriptor) (m : descriptor) : Prop :=
  match r with
  | Some out => forall k, out !! flip_key k = m !! k ≫= flip_value k
  | None => exists k v, m !! k = Some v /\ flip_value k v = None
  end.

End StylesSpec.

Module SliderSpec.

Import Slider.

Section Spec.

Context {num : Type} `{JsArith num}.
#[local] Open Scope js_scope.

(** Props with the given bounds and step, the other props at their
    defaults. *)
Definition props_of (min max step : num) : Props.t num :=
  {| Props.min := min; Props.max := max; Props.step := step;
     Props.value := None; Props.defaultValue := None;
     Props.disabled := false |}.

(** A mounted, idle component whose state holds [value] and [percent]. *)
Definition world_of (value percent : num) : world num :=
  {| state := with_value_percent value percent initial_state;
     dragRunning := false; document := []; frames := []; mounted := true |}.

(** The world with [value] and [percent] stored in its state. *)
Definition store (value percent : num) (w : world num) : world num :=
  fst (setState (with_value_percent value percent) w).

(** [clamp(x, lo, hi)] *)
Definition clamp (x lo hi : num) : num := n_min hi (n_max lo x).

(** [(currentValue - min) / (max - min)] *)
Definition ratio (props : Props.t num) (w : world num) : num :=
  (getValue w - Props.min props) / (Props.max props - Props.min props).

(** The invariant of the data model:
    [currentPercent == clamp((currentValue - min) / (max - min), 0, 1)]. *)
Definition percent_is_clamped_ratio (props : Props.t num) (w : world num)
  : bool :=
  getPercent w === clamp (ratio props w) n_zero n_one.


(** The value that a keyboard step would store if it followed the rules of
    a drag update: the old value plus or minus the step, aligned to the
    steps from [min] and rounded, within [min] and [max]. *)
Definition aligned_step (props : Props.t num) (up : bool) (v : num) : num :=
  let moved := if up then v + Props.step props else v - Props.step props in
  clamp (alignValue props moved) (Props.min props) (Props.max props).

(** The value that a keyboard step stores: the old value plus or minus the
    step, cut to [min] and [max]. *)
Definition stepped (props : Props.t num) (up : bool) (v : num) : num :=
  if up then n_min (Props.max props) (v + Props.step props)
  else n_max (Props.min props) (v - Props.step props).

(** The pointer offset of a drag update, cut to the track. *)
Definition cut_to_track (t : track num) (pos : num) : num :=
  if pos < n_zero then n_zero
  else if pos > clientWidth t then clientWidth t else pos.

(** The listeners of a mouse drag and of a touch drag. *)
Definition mouse_listeners : list listener :=
  [ ("mousemove", dragHandler); ("mouseup", dragEndHandler) ].

Definition touch_listeners : list listener :=
  [ ("touchmove", dragTouchHandler); ("touchup", dragTouchEndHandler);
    ("touchend", dragTouchEndHandler); ("touchcancel", dragTouchEndHandler) ].



(** An action that leaves the drag flag and the document alone. *)
Definition quiet (a : action num) : Prop :=
  forall w : world num,
    document (fst (a w)) = document w
    /\ State.dragging (state (fst (a w))) = State.dragging (state w).



End Spec.

(** A rational with at most five decimals. *)
Definition five_decimals (x : Q) : Prop := exists z : Z, (x == z # 100000)%Q.

End SliderSpec.

(** ** Further notions: the validators, animation frames, inert input *)

Module SliderChecks.

Import Slider.

Section Checks.

Context {num : Type} `{JsArith num}.
#[local] Open Scope js_scope.





(** An action that leaves the pending animation frames and [dragRunning]
    alone. *)
Definition calm (a : action num) : Prop :=
  forall w : world num,
    frames (fst (a w)) = frames w
    /\ dragRunning (fst (a w)) = dragRunning w.

(** Either an animation-frame callback is requested and [dragRunning] is
    set, or none is and [dragRunning] is clear. *)
Definition frame_invariant (w : world num) : Prop :=
  (dragRunning w = true /\ exists clientX, frames w = [clientX])
  \/ (dragRunning w = false /\ frames w = []).


(** An action that fires no [onChange]; one that leaves the value alone;
    one whose [onChange] calls carry the value it leaves in the state. *)
Definition silent (a : action num) : Prop :=
  forall (w : world num) (v : num), ~ In (onChange v) (snd (a w)).

Definition keeps_value (a : action num) : Prop :=
  forall w : world num, getValue (fst (a w)) = getValue w.

Definition reports (a : action num) : Prop :=
  forall (w : world num) (v : num),
    In (onChange v) (snd (a w)) -> v = getValue (fst (a w)).

(** The number of [onChange] calls among notifications. *)
Definition is_onChange (n : notification num) : bool :=
  match n with onChange _ => true | _ => false end.


(** The numbers of [onDragStart] and of [onDragStop] calls among
    notifications. *)
Definition is_start (n : notification num) : bool :=
  match n with onDragStart => true | _ => false end.

Definition is_stop (n : notification num) : bool :=
  match n with onDragStop => true | _ => false end.

Definition starts (ns : list (notification num)) : nat :=
  List.length (List.filter is_start ns).

Definition stops (ns : list (notification num)) : nat :=
  List.length (List.filter is_stop ns).

(** A listener that calls [cb]. *)
Definition calls (cb : callback) (l : listener) : bool :=
  callback_eqb (snd l) cb.

(** The drags that are still to end: one for the mouse while
    [dragEndHandler] is registered, one for touch while
    [dragTouchEndHandler] is. *)
Definition open_drags (w : world num) : nat :=
  (if List.existsb (calls dragEndHandler) (document w) then 1 else 0)
  + (if List.existsb (calls dragTouchEndHandler) (document w) then 1 else 0).

(** The document holds no listener but those that the handle registers. *)
Definition known_listeners (w : world num) : Prop :=
  forall l, In l (document w) -> In l (SliderSpec.mouse_listeners ++ SliderSpec.touch_listeners)%list.

(** An action that keeps the account of drags: the stops it fires and the
    drags it leaves open are covered by the drags that were open and the
    starts it fires. *)
Definition settles (a : action num) : Prop :=
  forall w : world num,
    known_listeners w ->
    known_listeners (fst (a w))
    /\ (stops (snd (a w)) + open_drags (fst (a w))
        <= open_drags w + starts (snd (a w)))%nat.

End Checks.

(** ** Sliders on a grid, under exact arithmetic *)

Import SliderSpec.

#[local] Open Scope Q_scope.


(** A value within the range, with at most five decimals. *)
Definition fits (props : Props.t Q) (v : Q) : Prop :=
  Props.min props <= v <= Props.max props /\ five_decimals v.




(** The data invariant: the value fits and the percent is the clamped ratio
    of the value. *)
Definition sound (props : Props.t Q) (w : world Q) : Prop :=
  fits props (getValue w) /\ percent_is_clamped_ratio props w = true.

End SliderChecks.

(* ===================================================================== *)
(** * Part III: properties *)
(* ===================================================================== *)

Module StylesFacts.

Import Js Regex Styles StylesSpec.

(** Case analysis on a key against a literal name. *)
Ltac case_name k lit :=
  destruct (String.eqb_spec k lit) as [->|?].

Ltac case_pair_key k :=
  case_name k "right"; [|case_name k "left"; [|case_name k "marginRight";
  [|case_name k "marginLeft"; [|case_name k "paddingRight";
  [|case_name k "paddingLeft"; [|case_name k "borderRight";
  [|case_name k "borderLeft"]]]]]]].

Lemma flippedAttributes_other (k : string) :
  is_pair_key k = false -> flippedAttributes !! k = None.
Proof.
  intros Hk. apply not_elem_of_list_to_map_1. simpl.
  unfold is_pair_key, pair_keys in Hk. simpl in Hk.
  rewrite !orb_false_iff in Hk. 
  rewrite !elem_of_cons, elem_of_nil.
  intros Hin.
  repeat match goal with
         | H : _ /\ _ |- _ => destruct H
         | H : _ \/ _ |- _ => destruct H
         | H : (k =? _) = false |- _ => apply String.eqb_neq in H
         end; try congruence; tauto.
Qed.

Lemma flip_key_mirror (k : string) : flip_key k = mirror k.
Proof.
  unfold mirror.
  case_pair_key k; try reflexivity.
  unfold flip_key. rewrite flippedAttributes_other; [reflexivity|].
  unfold is_pair_key, pair_keys. simpl.
  repeat match goal with
         | H : k <> _ |- _ => apply String.eqb_neq in H; rewrite H; clear H
         end.
  reflexivity.
Qed.

Lemma flip_key_involutive (k : string) : flip_key (flip_key k) = k.
Proof.
  rewrite !flip_key_mirror. unfold mirror at 2.
  case_pair_key k; try reflexivity.
  unfold mirror.
  repeat match goal with
         | H : k <> _ |- _ => apply String.eqb_neq in H; rewrite H; clear H
         end.
  reflexivity.
Qed.

Lemma flip_key_inj (k1 k2 : string) : flip_key k1 = flip_key k2 -> k1 = k2.
Proof.
  intros E. rewrite <- (flip_key_involutive k1), E. apply flip_key_involutive.
Qed.

Lemma flip_key_other (k : string) : is_pair_key k = false -> flip_key k = k.
Proof. intros Hk. unfold flip_key. now rewrite flippedAttributes_other. Qed.

Lemma loop_correct (m : descriptor) : loop_spec (map_fold flip_step (Some ∅) m) m.
Proof.
  apply (map_fold_weak_ind loop_spec).
  - intros k. now rewrite !lookup_empty.
  - intros i x m' r Hi IH. destruct r as [out|]; simpl in *.
    + destruct (flip_value i x) as [x'|] eqn:Hx; simpl.
      * intros k. destruct (decide (k = i)) as [->|Hne].
        -- rewrite !lookup_insert_eq. simpl. now rewrite Hx.
        -- rewrite !lookup_insert_ne; [apply IH|congruence|].
           intros E. apply flip_key_inj in E. congruence.
      * exists i, x. now rewrite lookup_insert_eq.
    + destruct IH as (k & v & Hk & Hv). exists k, v. split; [|exact Hv].
      rewrite lookup_insert_ne; [exact Hk|]. congruence.
Qed.

Lemma loop_lookup (m out : descriptor) (k : string) :
  map_fold flip_step (Some ∅) m = Some out ->
  out !! k = m !! flip_key k ≫= flip_value (flip_key k).
Proof.
  intros E. pose proof (loop_correct m) as Hs. rewrite E in Hs. simpl in Hs.
  rewrite <- (Hs (flip_key k)). now rewrite flip_key_involutive.
Qed.

Lemma loop_succeeds (m : descriptor) :
  (forall k v, m !! k = Some v -> is_Some (flip_value k v)) ->
  is_Some (map_fold flip_step (Some ∅) m).
Proof.
  intros Hall. pose proof (loop_correct m) as Hs.
  destruct (map_fold flip_step (Some ∅) m) as [out|]; [eauto|].
  destruct Hs as (k & v & Hk & Hv). destruct (Hall k v Hk) as [? ?]. congruence.
Qed.


Lemma ensureDirection_rtl (dev : bool) (muiTheme : option theme) (style : descriptor) :
  rtl muiTheme = true ->
  snd (ensureDirection dev muiTheme style)
  = map_fold flip_step (Some ∅) (tagged dev style).
Proof. intros Hr. unfold ensureDirection. rewrite Hr. reflexivity. Qed.

Lemma ensureDirection_ltr (dev : bool) (muiTheme : option theme) (style : descriptor) :
  rtl muiTheme = false ->
  snd (ensureDirection dev muiTheme style) = Some (tagged dev style).
Proof. intros Hr. unfold ensureDirection. rewrite Hr. reflexivity. Qed.

(** ** Relocation under a right-to-left theme *)

(** C4: under a right-to-left theme [ensureDirection] maps [{left: 5}] to
    [{right: 5}] and [{transform: 'translateX(10px)'}] to
    [{transform: 'translateX(-10px)'}]; a descriptor with one key of a
    bidirectional pair becomes the descriptor with the mirrored key and the
    same value, and in any descriptor the value of a pair key is found under
    the mirrored key of the result.  In development mode the result carries
    the marker besides. *)
Theorem ensureDirection_rtl_examples (dev : bool) (muiTheme : option theme) :
  rtl muiTheme = true ->
  snd (ensureDirection dev muiTheme {[ "left" := VNum 5 ]})
    = Some (tagged dev {[ "right" := VNum 5 ]})
  /\ snd (ensureDirection dev muiTheme {[ "transform" := VStr "translateX(10px)" ]})
    = Some (tagged dev {[ "transform" := VStr "translateX(-10px)" ]})
  /\ (forall k v, In k pair_keys ->
        snd (ensureDirection dev muiTheme {[ k := v ]})
        = Some (tagged dev {[ mirror k := v ]}))
  /\ (forall style out k v,
        In k pair_keys -> style !! k = Some v ->
        snd (ensureDirection dev muiTheme style) = Some out ->
        out !! mirror k = Some v).
Proof.
  intros Hr. repeat split.
  - rewrite ensureDirection_rtl by exact Hr. destruct dev; reflexivity.
  - rewrite ensureDirection_rtl by exact Hr. destruct dev; reflexivity.
  - intros k v Hk. rewrite ensureDirection_rtl by exact Hr.
    simpl in Hk.
    repeat (destruct Hk as [<-|Hk]; [destruct dev; reflexivity|]).
    destruct Hk.
  - intros style out k v Hk Hv. rewrite ensureDirection_rtl by exact Hr.
    intros E. rewrite (loop_lookup _ _ _ E), <- flip_key_mirror, flip_key_involutive.
    assert (Hs : tagged dev style !! k = Some v).
    { destruct dev; simpl; [|exact Hv]. unfold merge. now apply lookup_union_Some_l. }
    rewrite Hs. simpl.
    simpl in Hk.
    repeat (destruct Hk as [<-|Hk]; [reflexivity|]). destruct Hk.
Qed.


Lemma ensureDirection_rtl_examples_witness :
  snd (ensureDirection false rtlTheme {[ "left" := VNum 5 ]})
  = Some (tagged false {[ "right" := VNum 5 ]}).
Proof. exact (proj1 (ensureDirection_rtl_examples false rtlTheme eq_refl)). Defined.

(** ** The marker of the development mode *)

Lemma tagged_lookup_marker (style : descriptor) :
  merge tag style !! "didFlip"
  = Some (match style !! "didFlip" with Some v => v | None => VStr "true" end).
Proof.
  unfold merge, tag. destruct (style !! "didFlip") as [v|] eqn:E.
  - now apply lookup_union_Some_l.
  - rewrite lookup_union_r by exact E. apply lookup_singleton_eq.
Qed.

Lemma tagged_lookup_other (style : descriptor) (k : string) :
  k <> "didFlip" -> merge tag style !! k = style !! k.
Proof.
  intros Hk. unfold merge, tag. apply lookup_union_l.
  rewrite lookup_singleton_ne; [reflexivity|congruence].
Qed.

Lemma merge_tag_marked (m : descriptor) :
  is_Some (m !! "didFlip") -> merge tag m = m.
Proof.
  intros [v Hv]. apply map_eq. intros k.
  destruct (decide (k = "didFlip")) as [->|Hk].
  - now rewrite tagged_lookup_marker, Hv.
  - now apply tagged_lookup_other.
Qed.

Lemma tagged_entry (dev : bool) (style : descriptor) (k : string) (v : val) :
  tagged dev style !! k = Some v ->
  style !! k = Some v \/ (k = "didFlip" /\ v = VStr "true").
Proof.
  destruct dev; simpl; [|tauto].
  destruct (decide (k = "didFlip")) as [->|Hk].
  - rewrite tagged_lookup_marker. destruct (style !! "didFlip"); intros [= <-]; tauto.
  - rewrite tagged_lookup_other by exact Hk. tauto.
Qed.

(** ** Flipping twice *)

Lemma flip_transform_text (v v' : val) :
  flip_transform v = Some v' -> exists s, v' = VStr s.
Proof. destruct v; simpl; intros [= <-]. eauto. Qed.

Lemma flip_transformOrigin_text (v v' : val) :
  flip_transformOrigin v = Some v' -> exists s, v' = VStr s.
Proof.
  destruct v as [| | | |s|]; simpl; try discriminate.
  destruct (contains "right" s); [intros [= <-]; eauto|].
  destruct (contains "left" s); intros [= <-]; eauto.
Qed.

Lemma flip_value_total (k : string) (v : val) :
  k <> "transform" -> k <> "transformOrigin" -> is_Some (flip_value k v).
Proof.
  intros H1 H2. unfold flip_value.
  apply String.eqb_neq in H1, H2. rewrite H1, H2.
  destruct (_ || _); [destruct (is_str v "right"), (is_str v "left"); eauto|].
  destruct (k =? "direction"); [|eauto].
  destruct (is_str v "ltr"), (is_str v "rtl"); eauto.
Qed.

Lemma flip_value_again (k : string) (v0 v : val) :
  flip_value (flip_key k) v0 = Some v -> is_Some (flip_value k v).
Proof.
  intros E.
  destruct (String.eqb_spec k "transform") as [->|H1].
  - change (flip_transform v0 = Some v) in E.
    apply flip_transform_text in E as [s ->]. now eexists.
  - destruct (String.eqb_spec k "transformOrigin") as [->|H2].
    + change (flip_transformOrigin v0 = Some v) in E.
      apply flip_transformOrigin_text in E as [s ->].
      change (is_Some (flip_transformOrigin (VStr s))). simpl.
      destruct (contains "right" s); [eauto|]. destruct (contains "left" s); eauto.
    + now apply flip_value_total.
Qed.

Lemma loop_again (m out : descriptor) :
  map_fold flip_step (Some ∅) m = Some out ->
  is_Some (map_fold flip_step (Some ∅) out).
Proof.
  intros E. apply loop_succeeds. intros k v Hk.
  rewrite (loop_lookup _ _ _ E) in Hk.
  destruct (m !! flip_key k) as [v0|]; [|discriminate]. simpl in Hk.
  now apply flip_value_again with v0.
Qed.




(** ** Descriptors without direction-sensitive content *)



Lemma flip_transform_no_match (s : string) :
  match_ reTranslate 4 s = None -> match_ reSkew 8 s = None ->
  flip_transform (VStr s) = Some (VStr s).
Proof.
  intros H1 H2. unfold flip_transform. rewrite H1. cbv beta iota zeta.
  now rewrite H2.
Qed.







(** ** The skew functions of a [transform] value *)

(** C1, on the code as it is: under a right-to-left theme the [transform]
    value ['skew(10deg, 20deg)'] becomes [',-20deg)'] and ['skew(10deg)']
    becomes [',NaNundefined)'], where negating the angles would give
    ['skew(-10deg, -20deg)'] and ['skew(-10deg)'].  The replacement text is
    the second branch of the conditional alone, because the whole
    concatenation before the question mark is its condition.
    ['skewX(10deg)'] is left as it is: the pattern knows the lower-case
    letters [x] and [y] only. *)
Theorem ensureDirection_skew_replacement :
  snd (ensureDirection false rtlTheme {[ "transform" := VStr "skew(10deg, 20deg)" ]})
    = Some {[ "transform" := VStr ",-20deg)" ]}
  /\ snd (ensureDirection false rtlTheme {[ "transform" := VStr "skew(10deg)" ]})
    = Some {[ "transform" := VStr ",NaNundefined)" ]}
  /\ snd (ensureDirection false rtlTheme {[ "transform" := VStr "skewX(10deg)" ]})
    = Some {[ "transform" := VStr "skewX(10deg)" ]}.
Proof. repeat split; reflexivity. Qed.

End StylesFacts.

Module SliderFacts.

Import Slider SliderSpec.

Section Generic.

Context {num : Type} `{JsArith num}.
#[local] Open Scope js_scope.

Lemma keydown_none (props : Props.t num) (keycode : string) (w : world num) :
  key_action_of keycode = None -> onHandleKeyDown props keycode w = (w, []).
Proof. intros E. unfold onHandleKeyDown. now rewrite E. Qed.

(** The four cases of [onHandleKeyDown]. *)
Lemma keydown_case (props : Props.t num) (keycode : string) (a : key_action)
      (w : world num) (newValue newPercent : num) :
  key_action_of keycode = Some a ->
  (newValue, newPercent)
  = match a with
    | decrease =>
        (stepped props false (getValue w),
         (stepped props false (getValue w) - Props.min props)
         / (Props.max props - Props.min props))
    | increase =>
        (stepped props true (getValue w),
         (stepped props true (getValue w) - Props.min props)
         / (Props.max props - Props.min props))
    | home => (Props.min props, n_zero)
    | end_ => (Props.max props, n_one)
    end ->
  onHandleKeyDown props keycode w
  = if getValue w !== newValue
    then (store (n_fixed5 newValue) newPercent w, [onChange (n_fixed5 newValue)])
    else (w, []).
Proof.
  intros E Hv. unfold onHandleKeyDown. rewrite E.
  destruct a; injection Hv as -> ->; unfold stepped, getValue;
    cbv beta zeta iota; destruct (negb _); reflexivity.
Qed.

(** C2, amended: an arrow, page-up or page-down key stores the old value
    plus or minus the step, cut to [min] and [max] and then rounded to five
    decimals, with the percent of the cut value before the rounding, and
    fires [onChange]; nothing is aligned to the steps from [min].  When the
    cut value equals the old value nothing changes. *)
Theorem keydown_step_clamped_then_rounded
        (props : Props.t num) (keycode : string) (up : bool) (w : world num) :
  In keycode (if up then ["page up"; "right"; "up"]
              else ["page down"; "left"; "down"]) ->
  let newValue := stepped props up (getValue w) in
  let newPercent :=
    (newValue - Props.min props) / (Props.max props - Props.min props) in
  onHandleKeyDown props keycode w
  = if getValue w !== newValue
    then (store (n_fixed5 newValue) newPercent w, [onChange (n_fixed5 newValue)])
    else (w, []).
Proof.
  intros Hk newValue newPercent.
  apply keydown_case with (a := if up then increase else decrease).
  - destruct up; simpl in Hk;
      repeat (destruct Hk as [<-|Hk]; [reflexivity|]); destruct Hk.
  - now destruct up.
Qed.

(** C3, amended: when the current value differs from [min], the [home] key
    stores the percent 0 and [min] rounded to five decimals, and fires
    [onChange]; when the current value is [min] already, the state is left
    as it is.  The [end] key does the same with 1 and [max].  Neither key
    aligns the value to the steps. *)
Theorem keydown_home_end (props : Props.t num) (w : world num) :
  onHandleKeyDown props "home" w
  = (if getValue w !== Props.min props
     then (store (n_fixed5 (Props.min props)) n_zero w,
           [onChange (n_fixed5 (Props.min props))])
     else (w, []))
  /\ onHandleKeyDown props "end" w
     = (if getValue w !== Props.max props
        then (store (n_fixed5 (Props.max props)) n_one w,
              [onChange (n_fixed5 (Props.max props))])
        else (w, [])).
Proof.
  split.
  - now apply keydown_case with (a := home).
  - now apply keydown_case with (a := end_).
Qed.

End Generic.


(** ** Binary64 *)

#[local] Open Scope float_scope.

Lemma keydown_step_clamped_then_rounded_witness :
  onHandleKeyDown (props_of 0 1 0.01) "right" (world_of 0.5 0.5)
  = (store (n_fixed5 (stepped (props_of 0 1 0.01) true 0.5))
           ((stepped (props_of 0 1 0.01) true 0.5 - 0) / (1 - 0))
           (world_of 0.5 0.5),
     [onChange (n_fixed5 (stepped (props_of 0 1 0.01) true 0.5))]).
Proof.
  exact (keydown_step_clamped_then_rounded
           (props_of 0 1 0.01) "right" true (world_of 0.5 0.5)
           (or_intror (or_introl eq_refl))).
Defined.

(** C2 as stated fails: with [min = 0], [max = 1], [step = 0.3] and the
    value 0.5, the right arrow stores 0.8, where aligning 0.8 to the steps
    gives 0.9. *)
Lemma keydown_step_not_aligned :
  ~ (forall (props : Props.t float) (w : world float),
        n_lt (Props.min props) (Props.max props) = true ->
        n_seq (getValue (fst (onHandleKeyDown props "right" w)))
              (aligned_step props true (getValue w)) = true).
Proof.
  intros Hc. specialize (Hc (props_of 0 1 0.3) (world_of 0.5 0.5) eq_refl).
  vm_compute in Hc. discriminate Hc.
Qed.

(** C3 as stated fails: with [min = 0.123456] the [home] key stores
    0.12346. *)
Lemma keydown_home_rounds_min :
  ~ (forall (props : Props.t float) (w : world float),
        let w' := fst (onHandleKeyDown props "home" w) in
        n_seq (getPercent w') 0 = true
        /\ n_seq (getValue w') (Props.min props) = true).
Proof.
  intros Hc. destruct (Hc (props_of 0.123456 1 0.01) (world_of 0.5 0.5)) as [_ Hv].
  vm_compute in Hv. discriminate Hv.
Qed.



(** C8: with [step = 0.06] the right arrow takes the value 0.01 to 0.07,
    where the sum [0.01 + 0.06] itself is 0.06999999999999999; and every
    value that a key or a drag update stores went through the rounding to
    five decimals. *)
Theorem keydown_increase_rounds :
  getValue (fst (onHandleKeyDown (props_of 0 1 0.06) "right" (world_of 0.01 0.01)))
  = 0.07
  /\ 0.01 + 0.06 = 0.06999999999999999
  /\ (0.01 + 0.06 =? 0.07) = false
  /\ (forall num (A : JsArith num) (props : Props.t num) (keycode : string)
             (w : world num),
         let w' := fst (onHandleKeyDown props keycode w) in
         w' = w
         \/ getValue w' = n_fixed5 (stepped props true (getValue w))
         \/ getValue w' = n_fixed5 (stepped props false (getValue w))
         \/ getValue w' = n_fixed5 (Props.min props)
         \/ getValue w' = n_fixed5 (Props.max props))
  /\ (forall num (A : JsArith num) (props : Props.t num) (t : track num)
             (pos : num) (w : world num),
         let w' := fst (dragX props t pos w) in
         w' = w
         \/ getValue w'
            = n_fixed5
                (n_add
                   (n_mul
                      (n_round
                         (n_div
                            (n_sub
                               (percentToValue props
                                  (n_div (cut_to_track t pos) (clientWidth t)))
                               (Props.min props))
                            (Props.step props)))
                      (Props.step props))
                   (Props.min props))).
Proof.
  split; [vm_compute; reflexivity|].
  split; [vm_compute; reflexivity|].
  split; [vm_compute; reflexivity|].
  split.
  - intros num A props keycode w.
    destruct (key_action_of keycode) as [a|] eqn:E.
    + destruct a;
        rewrite (keydown_case props keycode _ w _ _ E eq_refl);
        destruct (negb _); simpl; tauto.
    + rewrite (keydown_none props keycode w E). simpl; tauto.
  - intros num A props t pos w.
    unfold dragX, updateWithChangeEvent, setPercent, cut_to_track, alignValue.
    cbv zeta. destruct (negb _); simpl; tauto.
Qed.


(** C10: a drag update cuts the pointer offset to the track, divides by the
    track width, and stores the aligned value and its percent as they are;
    [alignValue] is the rounded [Math.round((v - min) / step) * step + min].
    With [min = 0], [max = 0.5], [step = 0.3] a pointer beyond the right end
    of the track stores the value 0.6, above [max], and the percent 1.2;
    only [render] cuts the percent to 1. *)
Theorem drag_not_clamped_after_alignment :
  (let props := props_of 0 0.5 0.3 in
   let w' := fst (dragX props {| left := 0; clientWidth := 200 |} 250
                        (world_of 0 0)) in
   getValue w' = 0.6 /\ getPercent w' = 1.2
   /\ n_lt (Props.max props) (getValue w') = true
   /\ w' = fst (setPercent props 1 skip (world_of 0 0))
   /\ render_percent w' = 1)
  /\ (forall num (A : JsArith num) (props : Props.t num) (t : track num)
             (pos : num) (w : world num),
         dragX props t pos w
         = updateWithChangeEvent props
             (n_div (cut_to_track t pos) (clientWidth t)) w)
  /\ (forall num (A : JsArith num) (props : Props.t num) (percent : num)
             (w : world num),
         let value := alignValue props (percentToValue props percent) in
         fst (updateWithChangeEvent props percent w)
         = if negb (n_seq (getValue w) value)
           then store value
                  (n_div (n_sub value (Props.min props))
                         (n_sub (Props.max props) (Props.min props))) w
           else w)
  /\ (forall num (A : JsArith num) (props : Props.t num) (val : num),
         alignValue props val
         = n_fixed5
             (n_add (n_mul (n_round (n_div (n_sub val (Props.min props))
                                           (Props.step props)))
                           (Props.step props))
                    (Props.min props))).
Proof.
  split; [repeat split; vm_compute; reflexivity|].
  split; [reflexivity|].
  split; [|reflexivity].
  intros num A props percent w. unfold updateWithChangeEvent, setPercent.
  cbv zeta. unfold getValue. destruct (negb _); reflexivity.
Qed.


(** ** Exact arithmetic *)

#[local] Open Scope Q_scope.

Lemma Qlt_bool_true (a b : Q) : QArithJs.Qlt_bool a b = true <-> a < b.
Proof.
  unfold QArithJs.Qlt_bool. rewrite negb_true_iff.
  split.
  - intros Hf. apply Qnot_le_lt. intros Hle.
    apply Qle_bool_iff in Hle. congruence.
  - intros Hlt. destruct (Qle_bool b a) eqn:E; [|reflexivity].
    apply Qle_bool_iff in E. exfalso. apply (Qlt_not_le _ _ Hlt E).
Qed.

Lemma Qlt_bool_false (a b : Q) : QArithJs.Qlt_bool a b = false <-> b <= a.
Proof.
  unfold QArithJs.Qlt_bool. rewrite negb_false_iff. apply Qle_bool_iff.
Qed.






End SliderFacts.

Module ListenerFacts.

Import Slider SliderSpec.

Section Listeners.

Context {num : Type} `{JsArith num}.

Lemma fst_andThen (a b : action num) (w : world num) :
  fst (andThen a b w) = fst (b (fst (a w))).
Proof. unfold andThen. destruct (a w) as [w1 n1]. simpl. now destruct (b w1). Qed.

Lemma quiet_skip : quiet (@skip num).
Proof. intros w. now split. Qed.

Lemma quiet_notify (n : notification num) : quiet (notify n).
Proof. intros w. now split. Qed.

Lemma quiet_andThen (a b : action num) : quiet a -> quiet b -> quiet (andThen a b).
Proof.
  intros Ha Hb w. rewrite fst_andThen.
  destruct (Hb (fst (a w))) as [-> ->]. apply Ha.
Qed.

Lemma quiet_setState (f : State.t num -> State.t num) :
  (forall s, State.dragging (f s) = State.dragging s) -> quiet (setState f).
Proof. intros Hf w. split; [reflexivity|apply Hf]. Qed.

Lemma quiet_if (b : bool) (x y : action num) :
  quiet x -> quiet y -> quiet (if b then x else y).
Proof. now destruct b. Qed.

Lemma quiet_read (g : world num -> bool) (x y : action num) :
  quiet x -> quiet y -> quiet (fun w => if g w then x w else y w).
Proof. intros Hx Hy w. destruct (g w); [apply Hx|apply Hy]. Qed.

Lemma quiet_notify_value : quiet (fun w : world num => notify (onChange (State.value (state w))) w).
Proof. intros w. now split. Qed.

Lemma quiet_setValue (props : Props.t num) (i : num) : quiet (setValue props i).
Proof. apply quiet_setState. reflexivity. Qed.

Lemma quiet_mount (props : Props.t num) : quiet (componentWillMount props).
Proof. apply quiet_setState. reflexivity. Qed.

Lemma quiet_receive (props nextProps : Props.t num) :
  quiet (componentWillReceiveProps props nextProps).
Proof.
  intros w. unfold componentWillReceiveProps.
  destruct (Props.value nextProps); [|apply quiet_skip].
  destruct (negb _); [apply quiet_setValue|apply quiet_skip].
Qed.

Lemma quiet_keydown (props : Props.t num) (keycode : string) :
  quiet (onHandleKeyDown props keycode).
Proof.
  intros w. unfold onHandleKeyDown.
  destruct (key_action_of keycode) as [a|]; [|apply quiet_skip].
  destruct a; cbv zeta beta iota; (destruct (negb _); [|apply quiet_skip]);
    apply quiet_andThen;
    try (apply quiet_setState; reflexivity); apply quiet_notify_value.
Qed.

Lemma quiet_setPercent (props : Props.t num) (percent : num) (cb : action num) :
  quiet cb -> quiet (setPercent props percent cb).
Proof.
  intros Hcb w. unfold setPercent. cbv zeta.
  destruct (negb _); [|apply quiet_skip].
  apply quiet_andThen; [apply quiet_setState; reflexivity|exact Hcb].
Qed.

Lemma quiet_dragX (props : Props.t num) (t : track num) (pos : num) :
  quiet (dragX props t pos).
Proof. apply quiet_setPercent, quiet_notify_value. Qed.

Lemma quiet_onDragUpdate (props : Props.t num) (t : track num) (pos : num) :
  quiet (onDragUpdate props t pos).
Proof.
  intros w. unfold onDragUpdate.
  destruct (negb (State.dragging _)); [apply quiet_skip|].
  destruct (negb (Props.disabled _)); [apply quiet_dragX|apply quiet_skip].
Qed.

Lemma quiet_set_dragRunning (b : bool) : quiet (@set_dragRunning num b).
Proof. intros w. now split. Qed.

Lemma quiet_set_frames (f : list num -> list num) : quiet (set_frames f).
Proof. intros w. now split. Qed.

Lemma quiet_dragHandler (clientX : num) : quiet (dragHandler_ clientX).
Proof.
  intros w. unfold dragHandler_. destruct (dragRunning w); [apply quiet_skip|].
  apply quiet_andThen; [apply quiet_set_dragRunning|apply quiet_set_frames].
Qed.

Lemma quiet_run_callbacks (props : Props.t num) (t : track num) (fs : list num) :
  quiet (run_callbacks props t fs).
Proof.
  induction fs as [|x fs IH]; [apply quiet_skip|].
  simpl. apply quiet_andThen; [|exact IH].
  apply quiet_andThen; [apply quiet_onDragUpdate|apply quiet_set_dragRunning].
Qed.

Lemma quiet_animation_frame (props : Props.t num) (t : track num) :
  quiet (animation_frame props t).
Proof.
  intros w. unfold animation_frame.
  apply quiet_andThen; [apply quiet_set_frames|apply quiet_run_callbacks].
Qed.



Lemma callback_eqb_eq (a b : callback) : callback_eqb a b = true -> a = b.
Proof. destruct a, b; simpl; congruence. Qed.

Lemma listener_eqb_eq (a b : listener) : listener_eqb a b = true -> a = b.
Proof.
  destruct a as [ta ca], b as [tb cb]. unfold listener_eqb. simpl.
  rewrite andb_true_iff. intros [Ht Hc].
  apply String.eqb_eq in Ht. apply callback_eqb_eq in Hc. congruence.
Qed.

Lemma registered_in (l : listener) (doc : list listener) :
  List.existsb (listener_eqb l) doc = true -> In l doc.
Proof.
  rewrite existsb_exists. intros (l' & Hin & E).
  apply listener_eqb_eq in E. now subst.
Qed.

(** *** The start and the end of a drag *)





(** *** Events on the document *)

Lemma dispatch_invariant (J : world num -> Prop) (type : string) (clientX : num) :
  (forall l w, J w -> List.existsb (listener_eqb l) (document w) = true ->
               J (fst (invoke (snd l) clientX w))) ->
  forall ls w, J w -> J (fst (dispatch ls type clientX w)).
Proof.
  intros Hcb ls. induction ls as [|l ls IH]; intros w Hw; [exact Hw|].
  simpl. rewrite fst_andThen. apply IH.
  destruct (_ && _) eqn:E; [|exact Hw].
  apply andb_true_iff in E as [_ E]. now apply Hcb.
Qed.



(** *** One event *)

Lemma quiet_component_event (props : Props.t num) (e : event num) :
  match e with
  | handle_touchstart | handle_mousedown
  | track_touchstart _ _ | track_mousedown _ _ => True
  | _ => quiet (component_event props e)
  end.
Proof.
  destruct e; simpl;
    first
      [ exact I
      | apply quiet_mount
      | apply quiet_receive
      | apply quiet_if; [apply quiet_skip|apply quiet_keydown]
      | apply quiet_if; [apply quiet_setState; reflexivity|apply quiet_skip]
      | apply quiet_andThen;
          [apply quiet_setState; reflexivity|apply quiet_notify]
      | apply quiet_setState; reflexivity
      | apply quiet_skip ].
Qed.

Lemma step_world (props : Props.t num) (w : world num) (e : event num) :
  snd (fst (step (props, w) e))
  = match e with
    | unmounted => fst (unmount w)
    | document_event type clientX => fst (document_dispatch type clientX w)
    | frame t => fst (animation_frame props t w)
    | _ => if mounted w then fst (component_event props e w) else w
    end.
Proof.
  unfold step.
  destruct e; try (destruct (mounted w); [|reflexivity]);
    match goal with
    | |- context [let '(_, _) := ?x in _] => destruct x
    end; reflexivity.
Qed.



Lemma run_invariant (J : world num -> Prop) (ok : event num -> bool) :
  (forall pw e, ok e = true -> J (snd pw) -> J (snd (fst (step pw e)))) ->
  forall es pw, List.forallb ok es = true -> J (snd pw) ->
                J (snd (fst (run pw es))).
Proof.
  intros Hstep es. induction es as [|e es IH]; intros pw Hes Hpw; [exact Hpw|].
  simpl in Hes. apply andb_true_iff in Hes as [He Hes]. simpl.
  destruct (step pw e) as [pw1 n1] eqn:E1.
  destruct (run pw1 es) as [pw2 n2] eqn:E2. simpl.
  change pw2 with (fst (pw2, n2)). rewrite <- E2. apply IH; [exact Hes|].
  change pw1 with (fst (pw1, n1)). rewrite <- E1. now apply Hstep.
Qed.


End Listeners.


End ListenerFacts.

(** ** What the flip keeps, and when it throws *)

Module FlipFacts.

Import Js Regex Styles StylesSpec StylesFacts.

Lemma loop_all_flipped (m out : descriptor) :
  map_fold flip_step (Some ∅) m = Some out ->
  forall k v, m !! k = Some v -> is_Some (flip_value k v).
Proof.
  revert out.
  apply (map_fold_weak_ind
           (fun r m => forall out, r = Some out ->
                       forall k v, m !! k = Some v -> is_Some (flip_value k v))).
  - intros out _ k v Hk. now rewrite lookup_empty in Hk.
  - intros i x m' r Hi IH out E k v Hk.
    destruct r as [acc|]; [|discriminate E]. simpl in E.
    destruct (flip_value i x) as [x'|] eqn:Hx; [|discriminate E].
    destruct (decide (k = i)) as [->|Hne].
    + rewrite lookup_insert_eq in Hk. injection Hk as <-. eauto.
    + rewrite lookup_insert_ne in Hk by congruence. now apply (IH acc).
Qed.

Lemma flip_value_throws (k : string) (v : val) :
  flip_value k v = None <->
  (k = "transform" \/ k = "transformOrigin") /\ (forall s, v <> VStr s).
Proof.
  split.
  - intros E.
    destruct (String.eqb_spec k "transform") as [->|H1].
    + split; [now left|]. intros s ->. discriminate E.
    + destruct (String.eqb_spec k "transformOrigin") as [->|H2].
      * split; [now right|]. intros s ->.
        change (flip_transformOrigin (VStr s) = None) in E.
        unfold flip_transformOrigin in E.
        destruct (contains "right" s); [discriminate|].
        destruct (contains "left" s); discriminate.
      * destruct (flip_value_total k v H1 H2) as [? ?]. congruence.
  - intros [[->| ->] Hv].
    + change (flip_transform v = None). destruct v; try reflexivity.
      now destruct (Hv s).
    + change (flip_transformOrigin v = None). destruct v; try reflexivity.
      now destruct (Hv s).
Qed.

(** X1: [ensureDirection] throws exactly under a right-to-left theme on a
    descriptor whose [transform] or [transformOrigin] value is not a text. *)
Theorem ensureDirection_throws_iff
        (dev : bool) (muiTheme : option theme) (style : descriptor) :
  snd (ensureDirection dev muiTheme style) = None <->
  rtl muiTheme = true
  /\ exists k v, style !! k = Some v
                 /\ (k = "transform" \/ k = "transformOrigin")
                 /\ (forall s, v <> VStr s).
Proof.
  destruct (rtl muiTheme) eqn:Hr.
  - rewrite ensureDirection_rtl by exact Hr. split.
    + intros E. split; [reflexivity|].
      pose proof (loop_correct (tagged dev style)) as Hs. rewrite E in Hs.
      destruct Hs as (k & v & Hk & Hv). exists k, v.
      apply flip_value_throws in Hv as [Hkk Hvv].
      apply tagged_entry in Hk as [Hk|[-> ->]].
      * now split.
      * now destruct (Hvv "true").
    + intros [_ (k & v & Hk & Hkk & Hvv)].
      destruct (map_fold flip_step (Some ∅) (tagged dev style)) as [out|] eqn:E;
        [|reflexivity].
      assert (Hk' : tagged dev style !! k = Some v).
      { destruct dev; [|exact Hk]. simpl. rewrite tagged_lookup_other; [exact Hk|].
        destruct Hkk as [-> | ->]; discriminate. }
      destruct (loop_all_flipped _ _ E k v Hk') as [v' Hv'].
      assert (Hn : flip_value k v = None) by (now apply flip_value_throws).
      congruence.
  - rewrite ensureDirection_ltr by exact Hr. split; [discriminate|].
    intros [? _]. discriminate.
Qed.

(** The loop loses no entry and merges none. *)
Lemma loop_size (m out : descriptor) :
  map_fold flip_step (Some ∅) m = Some out -> size out = size m.
Proof.
  revert out.
  apply (map_fold_weak_ind
           (fun r m => forall out, r = Some out ->
                       size out = size m
                       /\ forall k, m !! k = None -> out !! flip_key k = None)).
  - intros out [= <-]. split; [reflexivity|]. intros k _. apply lookup_empty.
  - intros i x m' r Hi IH out E.
    destruct r as [acc|]; [|discriminate E]. simpl in E.
    destruct (flip_value i x) as [x'|] eqn:Hx; [|discriminate E].
    injection E as <-. destruct (IH acc eq_refl) as [Hsz Hnone]. split.
    + rewrite !map_size_insert_None; [now rewrite Hsz|exact Hi|now apply Hnone].
    + intros k Hk. destruct (decide (k = i)) as [->|Hne].
      * now rewrite lookup_insert_eq in Hk.
      * rewrite lookup_insert_ne in Hk by congruence.
        rewrite lookup_insert_ne; [now apply Hnone|].
        intros E'. apply flip_key_inj in E'. congruence.
Qed.


(** X2: under a right-to-left theme the result has as many entries as the
    descriptor that is flipped, and a key is present in the result exactly
    when its mirror is present in that descriptor: nothing is lost, and the
    two keys of a pair never land on one key. *)
Theorem ensureDirection_keeps_entries
        (dev : bool) (muiTheme : option theme) (style out : descriptor) :
  rtl muiTheme = true ->
  snd (ensureDirection dev muiTheme style) = Some out ->
  size out = size (tagged dev style)
  /\ (forall k, is_Some (out !! mirror k) <-> is_Some (tagged dev style !! k)).
Proof.
  intros Hr. rewrite ensureDirection_rtl by exact Hr. intros E.
  split; [now apply loop_size|].
  intros k. rewrite <- flip_key_mirror, (loop_lookup _ _ _ E), flip_key_involutive.
  destruct (tagged dev style !! k) as [v|] eqn:Hk; simpl.
  - split; [eauto|]. intros _. now apply (loop_all_flipped _ _ E k v).
  - split; intros [? ?]; discriminate.
Qed.

Lemma ensureDirection_keeps_entries_witness :
  size (<[ "left" := VNum 1 ]> {[ "right" := VNum 2 ]} : descriptor)
  = size (tagged false (<[ "left" := VNum 2 ]> {[ "right" := VNum 1 ]})).
Proof.
  apply (ensureDirection_keeps_entries false rtlTheme
           (<[ "left" := VNum 2 ]> {[ "right" := VNum 1 ]})
           (<[ "left" := VNum 1 ]> {[ "right" := VNum 2 ]}));
    reflexivity.
Defined.

(** ** Flipping back *)

Lemma flip_value_back (k : string) (v v' : val) :
  k <> "transform" -> k <> "transformOrigin" ->
  flip_value k v = Some v' -> flip_value (flip_key k) v' = Some v.
Proof.
  intros H1 H2.
  destruct (is_pair_key k) eqn:Hp.
  - (* a pair key: the value is kept, and so it is under the mirror *)
    rewrite flip_key_mirror. unfold is_pair_key, pair_keys in Hp.
    cbn [existsb] in Hp.
    repeat match type of Hp with
           | (?a || ?b) = true =>
               apply orb_true_iff in Hp as [Hp|Hp]
           end;
      try (apply String.eqb_eq in Hp; subst k; intros [= <-]; reflexivity).
    discriminate Hp.
  - rewrite (flip_key_other k Hp). unfold flip_value.
    apply String.eqb_neq in H1, H2. rewrite H1, H2.
    destruct (_ || _).
    { destruct v as [| | | |s|]; cbn [is_str]; try (intros [= <-]; reflexivity).
      destruct (String.eqb_spec s "right") as [->|?].
      - intros [= <-]. reflexivity.
      - destruct (String.eqb_spec s "left") as [->|?].
        + intros [= <-]. reflexivity.
        + intros [= <-]. cbn [is_str].
          apply String.eqb_neq in n, n0. now rewrite n, n0. }
    destruct (k =? "direction"); [|now intros [= <-]].
    destruct v as [| | | |s|]; cbn [is_str]; try (intros [= <-]; reflexivity).
    destruct (String.eqb_spec s "ltr") as [->|?].
    + intros [= <-]. reflexivity.
    + destruct (String.eqb_spec s "rtl") as [->|?].
      * intros [= <-]. reflexivity.
      * intros [= <-]. cbn [is_str].
        apply String.eqb_neq in n, n0. now rewrite n, n0.
Qed.


Lemma tagged_no_transform (dev : bool) (style : descriptor) (k : string) (v : val) :
  style !! "transform" = None -> style !! "transformOrigin" = None ->
  tagged dev style !! k = Some v ->
  k <> "transform" /\ k <> "transformOrigin".
Proof.
  intros H1 H2 Hk. apply tagged_entry in Hk as [Hk|[-> _]].
  - split; intros ->; congruence.
  - split; discriminate.
Qed.

(** X3: without [transform] and [transformOrigin], flipping twice under a
    right-to-left theme gives the descriptor back: the keys of the pairs
    return to their place, and [left]/[right] and [ltr]/[rtl] swap back. *)
Theorem ensureDirection_flip_back
        (dev : bool) (muiTheme : option theme) (style : descriptor) :
  rtl muiTheme = true ->
  style !! "transform" = None -> style !! "transformOrigin" = None ->
  exists out,
    snd (ensureDirection dev muiTheme style) = Some out
    /\ snd (ensureDirection dev muiTheme out) = Some (tagged dev style).
Proof.
  intros Hr H1 H2.
  destruct (loop_succeeds (tagged dev style)) as [out E].
  { intros k v Hk.
    destruct (tagged_no_transform dev style k v H1 H2 Hk).
    now apply flip_value_total. }
  exists out. rewrite !ensureDirection_rtl by exact Hr. split; [exact E|].
  assert (Hid : tagged dev out = out).
  { destruct dev; [|reflexivity]. apply merge_tag_marked.
    rewrite (loop_lookup _ _ _ E). change (flip_key "didFlip") with "didFlip".
    cbn [tagged]. rewrite tagged_lookup_marker. simpl. eauto. }
  rewrite Hid.
  destruct (loop_again _ _ E) as [out2 E2]. rewrite E2. f_equal.
  apply map_eq. intros k.
  rewrite (loop_lookup _ _ _ E2), (loop_lookup _ _ _ E), flip_key_involutive.
  destruct (tagged dev style !! k) as [v|] eqn:Hk; [|reflexivity].
  destruct (tagged_no_transform dev style k v H1 H2 Hk) as [N1 N2].
  destruct (flip_value_total k v N1 N2) as [v' Hv]. cbn [mbind option_bind].
  rewrite Hv. cbn [mbind option_bind].
  now apply flip_value_back.
Qed.

Lemma ensureDirection_flip_back_witness :
  exists out,
    snd (ensureDirection false rtlTheme
           (<[ "marginLeft" := VNum 72 ]> {[ "float" := VStr "left" ]}))
    = Some out
    /\ snd (ensureDirection false rtlTheme out)
       = Some (tagged false
                 (<[ "marginLeft" := VNum 72 ]> {[ "float" := VStr "left" ]})).
Proof.
  apply (ensureDirection_flip_back false rtlTheme
           (<[ "marginLeft" := VNum 72 ]> {[ "float" := VStr "left" ]}));
    reflexivity.
Defined.

End FlipFacts.

(** ** The patterns on [transform] values *)

Module PatternFacts.

Import Js Regex Styles StylesSpec StylesFacts.

(** A literal word matches only where the subject begins with it. *)
Lemma exec_Lit_prefix (w : string) :
  w <> "" ->
  forall pos rest c k x, exec (Lit w) pos rest c k = Some x ->
                         String.prefix w rest = true.
Proof.
  induction w as [|a w IH]; [congruence|]. intros _ pos rest c k x.
  destruct w as [|a2 w'].
  - cbn [Lit exec]. destruct rest as [|b rest']; [discriminate|].
    destruct (Ascii.eqb_spec a b) as [->|]; [|discriminate]. intros _.
    cbn [String.prefix].
    destruct (ascii_dec b b); [now destruct rest'|congruence].
  - change (Lit (String a (String a2 w')))
      with (Seq (Chr a) (Lit (String a2 w'))).
    cbn [exec]. destruct rest as [|b rest']; [discriminate|].
    destruct (Ascii.eqb_spec a b) as [->|]; [|discriminate]. intros E.
    apply IH in E; [|discriminate].
    cbn [String.prefix]. destruct (ascii_dec b b); [exact E|congruence].
Qed.

(** The two patterns begin with the start of the text or a white-space
    character, and then a word: a match begins at the word or one
    character before it. *)
Lemma exec_anchor_word (w : string) (g1 g2 : nat) (after_word tail : regex)
      (pos : nat) (rest : string) (c : captures) (k : cont)
      (x : nat * captures) :
  w <> "" ->
  exec (Seq (Grp g1 (Seq (Grp g2 (Alt Bol space)) (Seq (Lit w) after_word)))
            tail) pos rest c k = Some x ->
  String.prefix w rest = true
  \/ exists b rest', rest = String b rest' /\ String.prefix w rest' = true.
Proof.
  intros Hw. cbn [exec].
  unfold orelse.
  destruct (pos =? 0)%nat.
  - destruct (exec (Lit w) pos rest _ _) as [y|] eqn:E.
    + intros _. left. now apply exec_Lit_prefix in E.
    + unfold space. cbn [exec]. destruct rest as [|b rest']; [discriminate|].
      destruct (JsString.is_space b); [|discriminate].
      intros E'. right. exists b, rest'. split; [reflexivity|].
      now apply exec_Lit_prefix in E'.
  - unfold space. cbn [exec]. destruct rest as [|b rest']; [discriminate|].
    destruct (JsString.is_space b); [|discriminate].
    intros E'. right. exists b, rest'. split; [reflexivity|].
    now apply exec_Lit_prefix in E'.
Qed.

Lemma substring_all (s : string) : String.substring 0 (String.length s) s = s.
Proof. induction s as [|a s IH]; [reflexivity|]. simpl. now rewrite IH. Qed.

Lemma drop_zero (s : string) : JsString.drop 0 s = s.
Proof. unfold JsString.drop. rewrite Nat.sub_0_r. apply substring_all. Qed.

Lemma drop_cons (i : nat) (a : ascii) (s : string) :
  JsString.drop (S i) (String a s) = JsString.drop i s.
Proof. reflexivity. Qed.

Lemma drop_empty (i : nat) : JsString.drop i "" = "".
Proof. now destruct i. Qed.

Lemma prefix_at (w : string) :
  forall (i : nat) (s : string),
    String.prefix w (JsString.drop i s) = true ->
    String.substring i (String.length w) s = w.
Proof.
  induction i as [|i IH]; intros s Hp.
  - rewrite drop_zero in Hp. now apply prefix_correct.
  - destruct s as [|a s].
    + rewrite drop_empty in Hp. destruct w; [reflexivity|discriminate].
    + rewrite drop_cons in Hp. cbn [String.substring]. now apply IH.
Qed.

Lemma drop_tail (i : nat) :
  forall (s : string) (b : ascii) (rest : string),
    JsString.drop i s = String b rest -> JsString.drop (S i) s = rest.
Proof.
  induction i as [|i IH]; intros s b rest E.
  - rewrite drop_zero in E. subst s. rewrite drop_cons. apply drop_zero.
  - destruct s as [|a s]; [rewrite drop_empty in E; discriminate|].
    rewrite drop_cons in E |- *. now apply IH with b.
Qed.

Lemma occurs_contains (w s : string) (i : nat) :
  w <> "" -> String.substring i (String.length w) s = w ->
  contains w s = true.
Proof.
  intros Hw E. unfold contains, JsString.indexOf.
  destruct (String.index 0 w s) eqn:Hi; [reflexivity|].
  exfalso. apply (index_correct3 0 i w s Hi Hw); [lia|exact E].
Qed.

Lemma search_none (r : regex) (s : string) :
  (forall i, exec_at r s i = None) ->
  forall fuel i, search r s i fuel = None.
Proof.
  intros Hn. induction fuel as [|fuel IH]; intros i; cbn [search];
    rewrite Hn; [reflexivity|apply IH].
Qed.

Lemma anchor_word_no_match (w : string) (g1 g2 : nat) (after_word tail : regex)
      (n : nat) (s : string) :
  w <> "" -> contains w s = false ->
  match_ (Seq (Grp g1 (Seq (Grp g2 (Alt Bol space)) (Seq (Lit w) after_word)))
              tail) n s = None.
Proof.
  intros Hw Hc. unfold match_. rewrite search_none; [reflexivity|].
  intros i. unfold exec_at.
  destruct (exec _ i (JsString.drop i s) [] _) as [x|] eqn:E; [|reflexivity].
  exfalso.
  apply exec_anchor_word in E as [Hp|(b & rest' & Hd & Hp)]; [| |exact Hw].
  - apply prefix_at in Hp. rewrite (occurs_contains w s i Hw Hp) in Hc.
    discriminate.
  - apply drop_tail in Hd. rewrite <- Hd in Hp. apply prefix_at in Hp.
    rewrite (occurs_contains w s (S i) Hw Hp) in Hc. discriminate.
Qed.

(** X4: a [transform] value in which neither [translate] nor [skew] occurs is
    returned as it is. *)
Theorem transform_without_functions_unchanged
        (dev : bool) (muiTheme : option theme) (style out : descriptor)
        (s : string) :
  style !! "transform" = Some (VStr s) ->
  contains "translate" s = false -> contains "skew" s = false ->
  snd (ensureDirection dev muiTheme style) = Some out ->
  out !! "transform" = Some (VStr s).
Proof.
  intros Hs Ht Hk Hout.
  assert (Htag : tagged dev style !! "transform" = Some (VStr s)).
  { destruct dev; [|exact Hs]. cbn [tagged].
    rewrite tagged_lookup_other; [exact Hs|discriminate]. }
  destruct (rtl muiTheme) eqn:Hr.
  - rewrite ensureDirection_rtl in Hout by exact Hr.
    rewrite (loop_lookup _ _ _ Hout).
    change (flip_key "transform") with "transform". rewrite Htag.
    cbn [mbind option_bind]. change (flip_value "transform" (VStr s))
      with (flip_transform (VStr s)).
    apply flip_transform_no_match.
    + apply anchor_word_no_match; [discriminate|exact Ht].
    + apply anchor_word_no_match; [discriminate|exact Hk].
  - rewrite ensureDirection_ltr in Hout by exact Hr. now injection Hout as <-.
Qed.

Lemma transform_without_functions_unchanged_witness :
  (<[ "transform" := VStr "rotate(45deg) scale(2)" ]> ∅ : descriptor)
    !! "transform" = Some (VStr "rotate(45deg) scale(2)").
Proof.
  apply (transform_without_functions_unchanged false rtlTheme
           (<[ "transform" := VStr "rotate(45deg) scale(2)" ]> ∅));
    reflexivity.
Defined.

End PatternFacts.

(** ** The slider under exact arithmetic: rounding, alignment, the data
    invariant *)

Module ExactFacts.

Import Slider SliderSpec SliderChecks.

#[local] Open Scope Q_scope.

Lemma Qfloor_unique (x : Q) (z : Z) :
  inject_Z z <= x -> x < inject_Z (z + 1) -> Qfloor x = z.
Proof.
  intros Hl Hu.
  pose proof (Qfloor_le x) as Fl. pose proof (Qlt_floor x) as Fu.
  assert (H1 : (Qfloor x < z + 1)%Z).
  { rewrite Zlt_Qlt. eapply Qle_lt_trans; eassumption. }
  assert (H2 : (z < Qfloor x + 1)%Z).
  { rewrite Zlt_Qlt. eapply Qle_lt_trans; eassumption. }
  lia.
Qed.

Lemma grid_value (z : Z) : (z # 100000) * inject_Z 100000 == inject_Z z.
Proof. unfold Qeq, inject_Z. simpl. lia. Qed.

Lemma grid_scale (z : Z) : z # 100000 == inject_Z z / inject_Z 100000.
Proof. unfold Qeq, inject_Z, Qdiv, Qmult, Qinv. simpl. lia. Qed.

#[local] Instance fixed5_abs_proper : Proper (Qeq ==> Qeq) QArithJs.fixed5_abs.
Proof.
  intros x y E. unfold QArithJs.fixed5_abs.
  assert (F : Qfloor (x * inject_Z 100000 + (1 # 2))
              = Qfloor (y * inject_Z 100000 + (1 # 2))).
  { apply Qfloor_comp. now rewrite E. }
  now rewrite F.
Qed.

#[local] Instance fixed5_proper : Proper (Qeq ==> Qeq) QArithJs.fixed5.
Proof.
  intros x y E. unfold QArithJs.fixed5.
  assert (B : QArithJs.Qlt_bool x 0 = QArithJs.Qlt_bool y 0).
  { unfold QArithJs.Qlt_bool. f_equal.
    destruct (Qle_bool 0 x) eqn:Hx, (Qle_bool 0 y) eqn:Hy; try reflexivity.
    - apply Qle_bool_iff in Hx. rewrite E in Hx. apply Qle_bool_iff in Hx. congruence.
    - apply Qle_bool_iff in Hy. rewrite <- E in Hy. apply Qle_bool_iff in Hy. congruence. }
  rewrite B. destruct (QArithJs.Qlt_bool y 0); now rewrite E.
Qed.

(** Rounding to five decimals: at most half a unit of the fifth decimal
    away, always on the grid, and the identity on the grid. *)
Lemma fixed5_abs_bounds (x : Q) :
  x - (1 # 200000) < QArithJs.fixed5_abs x /\ QArithJs.fixed5_abs x <= x + (1 # 200000).
Proof.
  unfold QArithJs.fixed5_abs.
  set (y := x * inject_Z 100000 + (1 # 2)).
  pose proof (Qfloor_le y) as Fl. pose proof (Qlt_floor y) as Fu.
  rewrite (grid_scale (Qfloor y)).
  rewrite inject_Z_plus in Fu. change (inject_Z 1) with 1 in Fu.
  split.
  - apply Qlt_shift_div_l; [reflexivity|]. subst y.
    change (inject_Z 100000) with 100000 in *. lra.
  - apply Qle_shift_div_r; [reflexivity|]. subst y.
    change (inject_Z 100000) with 100000 in *. lra.
Qed.

Lemma fixed5_abs_grid (z : Z) : QArithJs.fixed5_abs (z # 100000) == z # 100000.
Proof.
  unfold QArithJs.fixed5_abs.
  assert (F : Qfloor ((z # 100000) * inject_Z 100000 + (1 # 2)) = z).
  { apply Qfloor_unique; rewrite grid_value.
    - lra.
    - rewrite inject_Z_plus. change (inject_Z 1) with 1. lra. }
  now rewrite F.
Qed.

Lemma fixed5_error (x : Q) : Qabs (QArithJs.fixed5 x - x) <= 1 # 200000.
Proof.
  unfold QArithJs.fixed5. apply Qabs_Qle_condition.
  destruct (QArithJs.Qlt_bool x 0).
  - destruct (fixed5_abs_bounds (- x)). split; lra.
  - destruct (fixed5_abs_bounds x). split; lra.
Qed.

Lemma fixed5_on_grid (x : Q) : five_decimals (QArithJs.fixed5 x).
Proof.
  unfold QArithJs.fixed5, QArithJs.fixed5_abs.
  destruct (QArithJs.Qlt_bool x 0).
  - exists (- Qfloor (- x * inject_Z 100000 + (1 # 2)))%Z. reflexivity.
  - eexists. reflexivity.
Qed.

Lemma fixed5_fixes_grid (x : Q) : five_decimals x -> QArithJs.fixed5 x == x.
Proof.
  intros [z E]. rewrite E. unfold QArithJs.fixed5.
  destruct (QArithJs.Qlt_bool (z # 100000) 0).
  - assert (O : - (z # 100000) == (- z) # 100000) by reflexivity.
    rewrite O, fixed5_abs_grid. unfold Qeq. simpl. lia.
  - apply fixed5_abs_grid.
Qed.

Lemma fixed5_idempotent (x : Q) :
  QArithJs.fixed5 (QArithJs.fixed5 x) == QArithJs.fixed5 x.
Proof. apply fixed5_fixes_grid, fixed5_on_grid. Qed.

Lemma fixed5_abs_monotone (x y : Q) :
  x <= y -> QArithJs.fixed5_abs x <= QArithJs.fixed5_abs y.
Proof.
  intros Hxy. unfold QArithJs.fixed5_abs.
  assert (F : (Qfloor (x * inject_Z 100000 + (1 # 2))
               <= Qfloor (y * inject_Z 100000 + (1 # 2)))%Z).
  { apply Qfloor_resp_le. change (inject_Z 100000) with 100000. lra. }
  unfold Qle. cbn [Qnum Qden]. apply Z.mul_le_mono_nonneg_r; [lia|exact F].
Qed.

Lemma fixed5_abs_nonneg (x : Q) : 0 <= x -> 0 <= QArithJs.fixed5_abs x.
Proof.
  intros Hx. apply Qle_trans with (QArithJs.fixed5_abs (0 # 100000)).
  - rewrite fixed5_abs_grid. discriminate.
  - apply fixed5_abs_monotone. assert (O : 0 # 100000 == 0) by reflexivity.
    now rewrite O.
Qed.

Lemma fixed5_monotone (x y : Q) :
  x <= y -> QArithJs.fixed5 x <= QArithJs.fixed5 y.
Proof.
  intros Hxy. unfold QArithJs.fixed5.
  destruct (QArithJs.Qlt_bool x 0) eqn:Hx, (QArithJs.Qlt_bool y 0) eqn:Hy.
  - apply Qopp_le_compat, fixed5_abs_monotone. lra.
  - apply SliderFacts.Qlt_bool_true in Hx. apply SliderFacts.Qlt_bool_false in Hy.
    pose proof (fixed5_abs_nonneg (- x)). pose proof (fixed5_abs_nonneg y). lra.
  - apply SliderFacts.Qlt_bool_false in Hx. apply SliderFacts.Qlt_bool_true in Hy. lra.
  - now apply fixed5_abs_monotone.
Qed.










#[local] Instance round_proper : Proper (Qeq ==> Qeq) QArithJs.round.
Proof.
  intros x y E. unfold QArithJs.round.
  assert (F : Qfloor (x + (1 # 2)) = Qfloor (y + (1 # 2))).
  { apply Qfloor_comp. now rewrite E. }
  now rewrite F.
Qed.


(** ** [alignValue] under exact arithmetic *)






(** ** The invariant on the grid *)

















(** ** The validators and the first state *)






(** What [render] draws is within the track, whatever the state holds. *)
Lemma render_percent_in_unit (w : world Q) :
  0 <= render_percent w <= 1
  /\ (0 <= getPercent w <= 1 -> render_percent w == getPercent w).
Proof.
  unfold render_percent, getPercent. simpl.
  destruct (QArithJs.Qlt_bool 1 (State.percent (state w))) eqn:E1.
  - apply SliderFacts.Qlt_bool_true in E1. split; [split; lra|lra].
  - apply SliderFacts.Qlt_bool_false in E1.
    destruct (QArithJs.Qlt_bool (State.percent (state w)) 0) eqn:E0.
    + apply SliderFacts.Qlt_bool_true in E0. split; [split; lra|lra].
    + apply SliderFacts.Qlt_bool_false in E0. split; [now split|reflexivity].
Qed.

End ExactFacts.

(** ** Animation frames and the disabled slider *)

Module FrameFacts.

Import Slider SliderSpec SliderChecks.

Section Frames.

Context {num : Type} `{JsArith num}.

Lemma calm_skip : calm (@skip num).
Proof. intros w. now split. Qed.

Lemma calm_notify (n : notification num) : calm (notify n).
Proof. intros w. now split. Qed.

Lemma calm_andThen (a b : action num) : calm a -> calm b -> calm (andThen a b).
Proof.
  intros Ha Hb w. rewrite ListenerFacts.fst_andThen.
  destruct (Hb (fst (a w))) as [-> ->]. apply Ha.
Qed.

Lemma calm_setState (f : State.t num -> State.t num) : calm (setState f).
Proof. intros w. now split. Qed.

Lemma calm_onDocument (f : list listener -> list listener) : calm (@onDocument num f).
Proof. intros w. now split. Qed.

Lemma calm_if (b : bool) (x y : action num) :
  calm x -> calm y -> calm (if b then x else y).
Proof. now destruct b. Qed.

Lemma calm_notify_value :
  calm (fun w : world num => notify (onChange (State.value (state w))) w).
Proof. intros w. now split. Qed.

Lemma calm_receive (props nextProps : Props.t num) :
  calm (componentWillReceiveProps props nextProps).
Proof.
  intros w. unfold componentWillReceiveProps.
  destruct (Props.value nextProps); [|apply calm_skip].
  destruct (negb _); [apply calm_setState|apply calm_skip].
Qed.

Lemma calm_keydown (props : Props.t num) (keycode : string) :
  calm (onHandleKeyDown props keycode).
Proof.
  intros w. unfold onHandleKeyDown.
  destruct (key_action_of keycode) as [a|]; [|apply calm_skip].
  destruct a; cbv zeta beta iota; (destruct (negb _); [|apply calm_skip]);
    apply calm_andThen; try apply calm_setState; apply calm_notify_value.
Qed.

Lemma calm_dragX (props : Props.t num) (t : track num) (pos : num) :
  calm (dragX props t pos).
Proof.
  intros w. unfold dragX, updateWithChangeEvent, setPercent. cbv zeta.
  destruct (negb _); [|apply calm_skip].
  apply calm_andThen; [apply calm_setState|apply calm_notify_value].
Qed.

Lemma calm_onDragUpdate (props : Props.t num) (t : track num) (pos : num) :
  calm (onDragUpdate props t pos).
Proof.
  intros w. unfold onDragUpdate.
  destruct (negb (State.dragging _)); [apply calm_skip|].
  destruct (negb (Props.disabled _)); [apply calm_dragX|apply calm_skip].
Qed.

Lemma calm_drag_start : calm (@onDragStart_ num).
Proof. apply calm_andThen; [apply calm_setState|apply calm_notify]. Qed.

Lemma calm_drag_stop : calm (@onDragStop_ num).
Proof. apply calm_andThen; [apply calm_setState|apply calm_notify]. Qed.

Lemma calm_mouse_down : calm (@onHandleMouseDown num).
Proof.
  repeat apply calm_andThen; try apply calm_onDocument; apply calm_drag_start.
Qed.

Lemma calm_touch_start : calm (@onHandleTouchStart num).
Proof.
  repeat apply calm_andThen; try apply calm_onDocument; apply calm_drag_start.
Qed.

Lemma calm_drag_end : calm (@dragEndHandler_ num).
Proof.
  repeat apply calm_andThen; try apply calm_onDocument; apply calm_drag_stop.
Qed.

Lemma calm_touch_end : calm (@dragTouchEndHandler_ num).
Proof.
  repeat apply calm_andThen; try apply calm_onDocument; apply calm_drag_stop.
Qed.

Lemma calm_component_event (props : Props.t num) (e : event num) :
  calm (component_event props e).
Proof.
  destruct e; simpl;
    first
      [ apply calm_setState
      | apply calm_receive
      | apply calm_if; [apply calm_skip|apply calm_touch_start]
      | apply calm_if; [apply calm_skip|apply calm_mouse_down]
      | apply calm_if; [apply calm_skip|apply calm_keydown]
      | apply calm_if; [apply calm_setState|apply calm_skip]
      | apply calm_andThen; [apply calm_setState|apply calm_notify]
      | apply calm_skip
      | idtac ].
  - intros w. unfold handleTouchStart. destruct (_ && _); [|apply calm_skip].
    apply calm_andThen; [apply calm_dragX|apply calm_touch_start].
  - intros w. unfold handleMouseDown. destruct (_ && _); [|apply calm_skip].
    apply calm_andThen; [apply calm_dragX|apply calm_mouse_down].
Qed.

Lemma calm_invariant (a : action num) (w : world num) :
  calm a -> frame_invariant w -> frame_invariant (fst (a w)).
Proof. intros Ha. unfold frame_invariant. now destruct (Ha w) as [-> ->]. Qed.

Lemma callback_frame_invariant (cb : callback) (clientX : num) (w : world num) :
  frame_invariant w -> frame_invariant (fst (invoke cb clientX w)).
Proof.
  intros Hinv. destruct cb; cbn [invoke].
  - unfold dragHandler_. destruct Hinv as [[Hr Hf]|[Hr Hf]]; rewrite Hr.
    + left. now split.
    + left. rewrite ListenerFacts.fst_andThen. simpl. rewrite Hf.
      split; [reflexivity|now exists clientX].
  - apply calm_invariant; [apply calm_drag_end|exact Hinv].
  - unfold dragTouchHandler_, dragHandler_.
    destruct Hinv as [[Hr Hf]|[Hr Hf]]; rewrite Hr.
    + left. now split.
    + left. rewrite ListenerFacts.fst_andThen. simpl. rewrite Hf.
      split; [reflexivity|now exists clientX].
  - apply calm_invariant; [apply calm_touch_end|exact Hinv].
Qed.

Lemma frame_callback_clears (props : Props.t num) (t : track num)
      (clientX : num) (w : world num) :
  frames w = [] ->
  let w' := fst (frame_callback props t clientX w) in
  frames w' = [] /\ dragRunning w' = false.
Proof.
  intros Hf. unfold frame_callback. rewrite ListenerFacts.fst_andThen.
  destruct (calm_onDragUpdate props t (n_sub clientX (left t)) w) as [E _].
  simpl. rewrite E. now split.
Qed.

Lemma animation_frame_invariant (props : Props.t num) (t : track num)
      (w : world num) :
  frame_invariant w -> frame_invariant (fst (animation_frame props t w)).
Proof.
  intros Hinv. right. unfold animation_frame.
  rewrite ListenerFacts.fst_andThen.
  destruct Hinv as [[Hr (x & Hf)]|[Hr Hf]]; rewrite Hf.
  - simpl. rewrite ListenerFacts.fst_andThen. simpl.
    destruct (frame_callback_clears props t x
                (fst (set_frames (fun _ => []) w)) eq_refl) as [E1 E2].
    now split.
  - simpl. now split.
Qed.

Lemma step_frame_invariant (pw : Props.t num * world num) (e : event num) :
  frame_invariant (snd pw) -> frame_invariant (snd (fst (step pw e))).
Proof.
  destruct pw as [props w]. cbn [snd]. intros Hinv.
  rewrite ListenerFacts.step_world.
  pose proof (calm_component_event props e) as Hc.
  destruct e;
    try (destruct (mounted w); [|exact Hinv]; now apply calm_invariant).
  - unfold document_dispatch. apply ListenerFacts.dispatch_invariant; [|exact Hinv].
    intros l w0 Hw0 _. now apply callback_frame_invariant.
  - now apply animation_frame_invariant.
Qed.



Lemma snd_andThen (a b : action num) (w : world num) :
  snd (andThen a b w) = (snd (a w) ++ snd (b (fst (a w))))%list.
Proof. unfold andThen. destruct (a w) as [w1 n1]. simpl. now destruct (b w1). Qed.






End Frames.


End FrameFacts.

(** ** The value that [onChange] reports *)

Module ReportFacts.

Import Slider SliderSpec SliderChecks.

Section Reports.

Context {num : Type} `{JsArith num}.

Lemma silent_reports (a : action num) : silent a -> reports a.
Proof. intros Ha w v Hin. now destruct (Ha w v). Qed.

Lemma silent_skip : silent (@skip num).
Proof. intros w v []. Qed.

Lemma keeps_skip : keeps_value (@skip num).
Proof. intros w. reflexivity. Qed.

Lemma silent_andThen (a b : action num) :
  silent a -> silent b -> silent (andThen a b).
Proof.
  intros Ha Hb w v. rewrite FrameFacts.snd_andThen, in_app_iff.
  intros [Hin|Hin]; [now apply (Ha w v)|now apply (Hb (fst (a w)) v)].
Qed.

Lemma keeps_andThen (a b : action num) :
  keeps_value a -> keeps_value b -> keeps_value (andThen a b).
Proof.
  intros Ha Hb w. rewrite ListenerFacts.fst_andThen. now rewrite Hb, Ha.
Qed.

Lemma reports_then_silent (a b : action num) :
  reports a -> silent b -> keeps_value b -> reports (andThen a b).
Proof.
  intros Ha Hb Hk w v.
  rewrite FrameFacts.snd_andThen, in_app_iff, ListenerFacts.fst_andThen, Hk.
  intros [Hin|Hin]; [now apply Ha|now destruct (Hb (fst (a w)) v)].
Qed.

Lemma silent_then_reports (a b : action num) :
  silent a -> reports b -> reports (andThen a b).
Proof.
  intros Ha Hb w v.
  rewrite FrameFacts.snd_andThen, in_app_iff, ListenerFacts.fst_andThen.
  intros [Hin|Hin]; [now destruct (Ha w v)|now apply Hb].
Qed.

Lemma silent_setState (f : State.t num -> State.t num) : silent (setState f).
Proof. intros w v []. Qed.

Lemma keeps_setState (f : State.t num -> State.t num) :
  (forall s, State.value (f s) = State.value s) -> keeps_value (setState f).
Proof. intros Hf w. apply Hf. Qed.

Lemma silent_onDocument (f : list listener -> list listener) :
  silent (@onDocument num f).
Proof. intros w v []. Qed.

Lemma keeps_onDocument (f : list listener -> list listener) :
  keeps_value (@onDocument num f).
Proof. intros w. reflexivity. Qed.

Lemma silent_notify (n : notification num) :
  is_onChange n = false -> silent (notify n).
Proof. intros Hn w v [E|[]]. subst n. discriminate Hn. Qed.

Lemma keeps_notify (n : notification num) : keeps_value (notify n).
Proof. intros w. reflexivity. Qed.

Lemma reports_store (f : State.t num -> State.t num) :
  reports (andThen (setState f)
             (fun w => notify (onChange (State.value (state w))) w)).
Proof. intros w v [E|[]]. now injection E as <-. Qed.

Lemma reports_keydown (props : Props.t num) (keycode : string) :
  reports (onHandleKeyDown props keycode).
Proof.
  intros w. unfold onHandleKeyDown.
  destruct (key_action_of keycode) as [a|]; [|apply silent_reports, silent_skip].
  destruct a; cbv zeta beta iota;
    (destruct (negb _); [apply reports_store|apply silent_reports, silent_skip]).
Qed.

Lemma reports_dragX (props : Props.t num) (t : track num) (pos : num) :
  reports (dragX props t pos).
Proof.
  intros w. unfold dragX, updateWithChangeEvent, setPercent. cbv zeta.
  destruct (negb _); [apply reports_store|apply silent_reports, silent_skip].
Qed.

Lemma start_silent_mouse : silent (@onHandleMouseDown num) /\ keeps_value (@onHandleMouseDown num).
Proof.
  split.
  - repeat apply silent_andThen; try apply silent_onDocument;
      [apply silent_setState|now apply silent_notify].
  - repeat apply keeps_andThen; try apply keeps_onDocument;
      [now apply keeps_setState|apply keeps_notify].
Qed.

Lemma start_silent_touch : silent (@onHandleTouchStart num) /\ keeps_value (@onHandleTouchStart num).
Proof.
  split.
  - repeat apply silent_andThen; try apply silent_onDocument;
      [apply silent_setState|now apply silent_notify].
  - repeat apply keeps_andThen; try apply keeps_onDocument;
      [now apply keeps_setState|apply keeps_notify].
Qed.

Lemma silent_callback (cb : callback) (clientX : num) : silent (invoke cb clientX).
Proof.
  destruct cb; cbn [invoke].
  - intros w. unfold dragHandler_. destruct (dragRunning w); intros v [].
  - repeat apply silent_andThen; try apply silent_onDocument;
      [apply silent_setState|now apply silent_notify].
  - intros w. unfold dragTouchHandler_, dragHandler_.
    destruct (dragRunning w); intros v [].
  - repeat apply silent_andThen; try apply silent_onDocument;
      [apply silent_setState|now apply silent_notify].
Qed.

Lemma silent_dispatch (ls : list listener) (type : string) (clientX : num) :
  silent (dispatch ls type clientX).
Proof.
  induction ls as [|l ls IH]; [apply silent_skip|].
  cbn [dispatch]. apply silent_andThen; [|exact IH].
  intros w. destruct (_ && _); [apply silent_callback|apply silent_skip].
Qed.

Lemma reports_component_event (props : Props.t num) (e : event num) :
  reports (component_event props e).
Proof.
  destruct e; cbn [component_event];
    try (apply silent_reports;
         first [ apply silent_setState | apply silent_skip
               | apply silent_andThen;
                   [apply silent_setState|now apply silent_notify] ]).
  - (* receive_props *)
    apply silent_reports. intros w. unfold componentWillReceiveProps.
    destruct (Props.value nextProps); [|apply silent_skip].
    destruct (negb _); [apply silent_setState|apply silent_skip].
  - destruct (Props.disabled props);
      apply silent_reports; [apply silent_skip|apply start_silent_touch].
  - destruct (Props.disabled props);
      apply silent_reports; [apply silent_skip|apply start_silent_mouse].
  - destruct (Props.disabled props);
      [apply silent_reports, silent_skip|apply reports_keydown].
  - intros w. unfold handleTouchStart.
    destruct (_ && _); [|apply silent_reports, silent_skip].
    apply reports_then_silent;
      [apply reports_dragX|apply start_silent_touch|apply start_silent_touch].
  - intros w. unfold handleMouseDown.
    destruct (_ && _); [|apply silent_reports, silent_skip].
    apply reports_then_silent;
      [apply reports_dragX|apply start_silent_mouse|apply start_silent_mouse].
  - apply silent_reports. unfold handleMouseUp.
    destruct (negb _); [apply silent_setState|apply silent_skip].
Qed.

Lemma step_notes (props : Props.t num) (w : world num) (e : event num) :
  snd (step (props, w) e)
  = match e with
    | unmounted => []
    | document_event type clientX => snd (document_dispatch type clientX w)
    | frame t => snd (animation_frame props t w)
    | _ => if mounted w then snd (component_event props e w) else []
    end.
Proof.
  unfold step.
  destruct e; try (destruct (mounted w); [|reflexivity]);
    try reflexivity;
    match goal with
    | |- context [let '(_, _) := ?x in _] => destruct x
    end; reflexivity.
Qed.

Lemma reports_frame (props : Props.t num) (t : track num) (w : world num)
      (v : num) :
  frame_invariant w ->
  In (onChange v) (snd (animation_frame props t w)) ->
  v = getValue (fst (animation_frame props t w)).
Proof.
  intros Hinv. unfold animation_frame.
  assert (Hr : forall x, reports (frame_callback props t x)).
  { intros x. apply reports_then_silent.
    - intros w0. unfold onDragUpdate.
      destruct (negb (State.dragging _)); [apply silent_reports, silent_skip|].
      destruct (negb (Props.disabled _));
        [apply reports_dragX|apply silent_reports, silent_skip].
    - intros w0 v0 [].
    - intros w0. reflexivity. }
  destruct Hinv as [[_ (x & Hf)]|[_ Hf]]; rewrite Hf; cbn [run_callbacks].
  - apply silent_then_reports; [intros w0 v0 []|].
    apply reports_then_silent; [apply Hr|apply silent_skip|apply keeps_skip].
  - intros [].
Qed.

(** X11: every [onChange] that an event fires carries the value that the
    state holds after the event. *)
Theorem onChange_reports_stored_value
        (props : Props.t num) (es : list (event num)) (e : event num)
        (v : num) :
  let pw := fst (run (props, initial_world) es) in
  In (onChange v) (snd (step pw e)) ->
  v = getValue (snd (fst (step pw e))).
Proof.
  intros pw.
  assert (Hinv : frame_invariant (snd pw)).
  { apply (ListenerFacts.run_invariant frame_invariant (fun _ => true)).
    - intros pw0 e0 _. apply FrameFacts.step_frame_invariant.
    - clear. induction es; simpl; auto.
    - right. now split. }
  destruct pw as [props' w]. cbn [snd] in Hinv.
  rewrite step_notes, ListenerFacts.step_world.
  pose proof (reports_component_event props' e) as Hc.
  destruct e;
    try (destruct (mounted w); [apply Hc|intros []]).
  - intros Hin. now destruct (silent_dispatch (document w) type clientX w v).
  - now apply reports_frame.
Qed.

End Reports.

Lemma onChange_reports_stored_value_witness :
  (6000 # 100000)%Q
  = getValue (snd (fst (step (fst (run (props_of 0 1 (6 # 100), initial_world)%Q
                                      [mount]))
                             (handle_keydown "right")))).
Proof.
  apply (onChange_reports_stored_value (props_of 0 1 (6 # 100))%Q [mount]
           (handle_keydown "right") (6000 # 100000)%Q).
  left. vm_compute. reflexivity.
Defined.

End ReportFacts.

(** ** The account of drag starts and stops *)

Module DragFacts.

Import Slider SliderSpec SliderChecks.

Section Drags.

Context {num : Type} `{JsArith num}.

Lemma existsb_filter_keep {A : Type} (q p : A -> bool) (l : list A) :
  (forall x, q x = true -> p x = true) ->
  List.existsb q (List.filter p l) = List.existsb q l.
Proof.
  intros Hqp. induction l as [|a l IH]; [reflexivity|]. simpl.
  destruct (p a) eqn:Hp; simpl; rewrite IH; [reflexivity|].
  destruct (q a) eqn:Hq; [|reflexivity].
  rewrite (Hqp a Hq) in Hp. discriminate.
Qed.

Lemma existsb_filter_drop {A : Type} (q p : A -> bool) (l : list A) :
  (forall x, In x l -> q x = true -> p x = false) ->
  List.existsb q (List.filter p l) = false.
Proof.
  intros Hqp. induction l as [|a l IH]; [reflexivity|]. simpl.
  assert (IH' : List.existsb q (List.filter p l) = false).
  { apply IH. intros x Hx. apply Hqp. now right. }
  destruct (p a) eqn:Hp; [|exact IH']. simpl. rewrite IH'.
  destruct (q a) eqn:Hq; [|reflexivity].
  rewrite (Hqp a (or_introl eq_refl) Hq) in Hp. discriminate.
Qed.

Lemma listener_eqb_refl (l : listener) : listener_eqb l l = true.
Proof.
  destruct l as [t cb]. unfold listener_eqb. cbn [fst snd].
  rewrite String.eqb_refl. now destruct cb.
Qed.

Lemma existsb_add (q : listener -> bool) (type : string) (cb : callback)
      (doc : list listener) :
  List.existsb q (addEventListener type cb doc)
  = List.existsb q doc || q (type, cb).
Proof.
  unfold addEventListener.
  destruct (List.existsb (listener_eqb (type, cb)) doc) eqn:E.
  - apply existsb_exists in E as (l & Hl & El).
    apply ListenerFacts.listener_eqb_eq in El. subst l.
    destruct (q (type, cb)) eqn:Hq; [|now rewrite orb_false_r].
    rewrite orb_true_r. apply existsb_exists. eauto.
  - rewrite existsb_app. simpl. now rewrite orb_false_r.
Qed.

Lemma in_add (l : listener) (type : string) (cb : callback)
      (doc : list listener) :
  In l (addEventListener type cb doc) -> In l doc \/ l = (type, cb).
Proof.
  unfold addEventListener. destruct (List.existsb _ doc); [now left|].
  rewrite in_app_iff. intros [Hl|[<-|[]]]; auto.
Qed.

Lemma in_remove (l : listener) (type : string) (cb : callback)
      (doc : list listener) :
  In l (removeEventListener type cb doc) -> In l doc.
Proof. unfold removeEventListener. rewrite filter_In. tauto. Qed.

(** ** Composition *)

Lemma settles_skip : settles (@skip num).
Proof. intros w Hk. split; [exact Hk|]. simpl. lia. Qed.

Lemma starts_app (a b : list (notification num)) :
  starts (a ++ b) = (starts a + starts b)%nat.
Proof. unfold starts. now rewrite List.filter_app, List.length_app. Qed.

Lemma stops_app (a b : list (notification num)) :
  stops (a ++ b) = (stops a + stops b)%nat.
Proof. unfold stops. now rewrite List.filter_app, List.length_app. Qed.

Lemma settles_andThen (a b : action num) :
  settles a -> settles b -> settles (andThen a b).
Proof.
  intros Ha Hb w Hk.
  rewrite FrameFacts.snd_andThen, ListenerFacts.fst_andThen.
  destruct (Ha w Hk) as [Hk1 H1]. destruct (Hb (fst (a w)) Hk1) as [Hk2 H2].
  split; [exact Hk2|]. rewrite starts_app, stops_app. lia.
Qed.

Lemma settles_if (b : bool) (x y : action num) :
  settles x -> settles y -> settles (if b then x else y).
Proof. now destruct b. Qed.

Lemma settles_read (g : world num -> bool) (x y : action num) :
  settles x -> settles y -> settles (fun w => if g w then x w else y w).
Proof. intros Hx Hy w. destruct (g w); [apply Hx|apply Hy]. Qed.

(** An action that leaves the document alone and fires no [onDragStop]. *)
Lemma settles_still (a : action num) :
  (forall w, document (fst (a w)) = document w) ->
  (forall w, stops (snd (a w)) = 0%nat) ->
  settles a.
Proof.
  intros Hd Hs w Hk. unfold known_listeners, open_drags.
  rewrite Hd, Hs. split; [exact Hk|]. lia.
Qed.

Lemma settles_quiet (a : action num) :
  quiet a -> (forall w, stops (snd (a w)) = 0%nat) -> settles a.
Proof. intros Hq. apply settles_still. intros w. apply Hq. Qed.

(** ** Starting and ending a drag *)

Lemma known_cases (l : listener) :
  In l (mouse_listeners ++ touch_listeners)%list ->
  l = ("mousemove", dragHandler) \/ l = ("mouseup", dragEndHandler)
  \/ l = ("touchmove", dragTouchHandler) \/ l = ("touchup", dragTouchEndHandler)
  \/ l = ("touchend", dragTouchEndHandler)
  \/ l = ("touchcancel", dragTouchEndHandler).
Proof. simpl. intuition. Qed.

Lemma settles_start : settles (@onDragStart_ num).
Proof. intros w Hk. split; [exact Hk|]. simpl. unfold open_drags. simpl. lia. Qed.

Lemma mouse_start_settles : settles (@onHandleMouseDown num).
Proof.
  intros w Hk. split.
  - intros l Hl. simpl in Hl.
    apply in_add in Hl as [Hl| ->]; [|simpl; tauto].
    apply in_add in Hl as [Hl| ->]; [now apply Hk|simpl; tauto].
  - unfold open_drags. simpl. rewrite !existsb_add. cbn [calls snd callback_eqb].
    rewrite !orb_false_r.
    destruct (List.existsb (calls dragEndHandler) (document w));
      destruct (List.existsb (calls dragTouchEndHandler) (document w));
      unfold starts; simpl; lia.
Qed.

Lemma touch_start_settles : settles (@onHandleTouchStart num).
Proof.
  intros w Hk. split.
  - intros l Hl. simpl in Hl.
    repeat (apply in_add in Hl as [Hl| ->]; [|simpl; tauto]).
    now apply Hk.
  - unfold open_drags. simpl. rewrite !existsb_add. cbn [calls snd callback_eqb].
    rewrite !orb_false_r.
    destruct (List.existsb (calls dragEndHandler) (document w));
      destruct (List.existsb (calls dragTouchEndHandler) (document w));
      unfold starts; simpl; lia.
Qed.

Ltac keeps_other :=
  let t := fresh "t" in
  let cb := fresh "cb" in
  let Hc := fresh "Hc" in
  intros [t cb] Hc; unfold calls in Hc; cbn [snd] in Hc;
  destruct cb; try discriminate Hc;
  unfold listener_eqb; cbn [fst snd callback_eqb];
  now rewrite andb_false_r.

(** Ending a mouse drag whose listener is registered. *)
Lemma mouse_end_settles (w : world num) :
  known_listeners w ->
  List.existsb (calls dragEndHandler) (document w) = true ->
  known_listeners (fst (dragEndHandler_ w))
  /\ (stops (snd (dragEndHandler_ w)) + open_drags (fst (dragEndHandler_ w))
      <= open_drags w + starts (snd (dragEndHandler_ w)))%nat.
Proof.
  intros Hk Hin. split.
  - intros l Hl. simpl in Hl. now apply in_remove, in_remove, Hk in Hl.
  - unfold open_drags. rewrite Hin. simpl. unfold removeEventListener.
    rewrite (existsb_filter_drop (calls dragEndHandler)).
    + rewrite !(existsb_filter_keep (calls dragTouchEndHandler)).
      * lia.
      * keeps_other.
      * keeps_other.
    + intros l Hl Hc. apply filter_In in Hl as [Hl _].
      apply Hk, known_cases in Hl.
      destruct Hl as [->|[->|[->|[->|[->| ->]]]]]; try discriminate Hc;
        reflexivity.
Qed.

(** Ending a touch drag whose listener is registered. *)
Lemma touch_end_settles (w : world num) :
  known_listeners w ->
  List.existsb (calls dragTouchEndHandler) (document w) = true ->
  known_listeners (fst (dragTouchEndHandler_ w))
  /\ (stops (snd (dragTouchEndHandler_ w))
      + open_drags (fst (dragTouchEndHandler_ w))
      <= open_drags w + starts (snd (dragTouchEndHandler_ w)))%nat.
Proof.
  intros Hk Hin. split.
  - intros l Hl. simpl in Hl.
    now apply in_remove, in_remove, in_remove, in_remove, Hk in Hl.
  - unfold open_drags. rewrite Hin. simpl. unfold removeEventListener.
    rewrite (existsb_filter_drop (calls dragTouchEndHandler)).
    + rewrite !(existsb_filter_keep (calls dragEndHandler)).
      * lia.
      * keeps_other.
      * keeps_other.
      * keeps_other.
      * keeps_other.
    + intros l Hl Hc. apply filter_In in Hl as [Hl Hc2].
      apply filter_In in Hl as [Hl Hc1]. apply filter_In in Hl as [Hl _].
      apply Hk, known_cases in Hl.
      destruct Hl as [->|[->|[->|[->|[->| ->]]]]]; try discriminate Hc;
        first [discriminate Hc1|discriminate Hc2|reflexivity].
Qed.

(** ** The handlers that neither start nor end a drag *)

Ltac split_ifs :=
  repeat match goal with
         | |- context [if ?c then _ else _] => destruct c
         end.

Lemma dragX_no_stop (props : Props.t num) (t : track num) (pos : num)
      (w : world num) :
  stops (snd (dragX props t pos w)) = 0%nat.
Proof.
  unfold dragX, updateWithChangeEvent, setPercent. cbv beta zeta.
  split_ifs; reflexivity.
Qed.

Lemma settles_dragX (props : Props.t num) (t : track num) (pos : num) :
  settles (dragX props t pos).
Proof.
  apply settles_quiet; [apply ListenerFacts.quiet_dragX|].
  apply dragX_no_stop.
Qed.

Lemma settles_dragHandler (clientX : num) : settles (dragHandler_ clientX).
Proof.
  apply settles_quiet; [apply ListenerFacts.quiet_dragHandler|].
  intros w. unfold dragHandler_. now destruct (dragRunning w).
Qed.

Lemma frame_callback_no_stop (props : Props.t num) (t : track num)
      (clientX : num) (w : world num) :
  stops (snd (frame_callback props t clientX w)) = 0%nat.
Proof.
  unfold frame_callback. rewrite FrameFacts.snd_andThen, stops_app.
  unfold onDragUpdate.
  destruct (negb (State.dragging (state w))); [reflexivity|].
  destruct (negb (Props.disabled props)); [|reflexivity].
  now rewrite dragX_no_stop.
Qed.

Lemma run_callbacks_no_stop (props : Props.t num) (t : track num)
      (fs : list num) (w : world num) :
  stops (snd (run_callbacks props t fs w)) = 0%nat.
Proof.
  revert w. induction fs as [|x fs IH]; intros w; [reflexivity|].
  cbn [run_callbacks]. rewrite FrameFacts.snd_andThen, stops_app.
  now rewrite frame_callback_no_stop, IH.
Qed.

Lemma settles_animation_frame (props : Props.t num) (t : track num) :
  settles (animation_frame props t).
Proof.
  apply settles_quiet; [apply ListenerFacts.quiet_animation_frame|].
  intros w. unfold animation_frame.
  rewrite FrameFacts.snd_andThen, stops_app.
  now rewrite run_callbacks_no_stop.
Qed.

Lemma settles_unmount : settles (@unmount num).
Proof. apply settles_still; intros w; reflexivity. Qed.

(** ** The events *)

Lemma settles_invoke (l : listener) (clientX : num) (w : world num) :
  known_listeners w ->
  List.existsb (listener_eqb l) (document w) = true ->
  known_listeners (fst (invoke (snd l) clientX w))
  /\ (stops (snd (invoke (snd l) clientX w))
      + open_drags (fst (invoke (snd l) clientX w))
      <= open_drags w + starts (snd (invoke (snd l) clientX w)))%nat.
Proof.
  intros Hk Hin. apply ListenerFacts.registered_in in Hin.
  assert (Hc : List.existsb (calls (snd l)) (document w) = true).
  { apply existsb_exists. exists l. split; [exact Hin|].
    unfold calls. now destruct (snd l). }
  destruct l as [type cb]. cbn [snd] in *. destruct cb; cbn [invoke].
  - now apply settles_dragHandler.
  - now apply mouse_end_settles.
  - now apply settles_dragHandler.
  - now apply touch_end_settles.
Qed.

Lemma settles_dispatch (type : string) (clientX : num) (ls : list listener) :
  settles (dispatch ls type clientX).
Proof.
  induction ls as [|l ls IH]; [apply settles_skip|].
  cbn [dispatch]. apply settles_andThen; [|exact IH].
  intros w Hk.
  destruct (String.eqb (fst l) type
            && List.existsb (listener_eqb l) (document w)) eqn:E.
  - apply andb_true_iff in E as [_ E]. now apply settles_invoke.
  - now apply settles_skip.
Qed.

Lemma settles_document_dispatch (type : string) (clientX : num) :
  settles (document_dispatch type clientX).
Proof. intros w. apply settles_dispatch. Qed.

Lemma component_event_no_stop (props : Props.t num) (e : event num)
      (w : world num) :
  match e with
  | handle_touchstart | handle_mousedown
  | track_touchstart _ _ | track_mousedown _ _ => True
  | _ => stops (snd (component_event props e w)) = 0%nat
  end.
Proof.
  destruct e; try exact I; cbn [component_event]; try reflexivity.
  - unfold componentWillReceiveProps. destruct (Props.value nextProps);
      [|reflexivity]. now destruct (negb _).
  - destruct (Props.disabled props); [reflexivity|].
    unfold onHandleKeyDown. cbv beta zeta.
    destruct (key_action_of keycode) as [[]|]; split_ifs; reflexivity.
  - unfold handleMouseUp. now destruct (negb _).
Qed.

Lemma settles_component_event (props : Props.t num) (e : event num) :
  settles (component_event props e).
Proof.
  pose proof (ListenerFacts.quiet_component_event props e) as Hq.
  pose proof (component_event_no_stop props e) as Hs.
  destruct e; try (now apply settles_quiet); cbn [component_event].
  - apply settles_if; [apply settles_skip|apply touch_start_settles].
  - apply settles_if; [apply settles_skip|apply mouse_start_settles].
  - unfold handleTouchStart. apply settles_read; [|apply settles_skip].
    apply settles_andThen; [apply settles_dragX|apply touch_start_settles].
  - unfold handleMouseDown. apply settles_read; [|apply settles_skip].
    apply settles_andThen; [apply settles_dragX|apply mouse_start_settles].
Qed.

Lemma step_settles (pw : Props.t num * world num) (e : event num) :
  known_listeners (snd pw) ->
  known_listeners (snd (fst (step pw e)))
  /\ (stops (snd (step pw e)) + open_drags (snd (fst (step pw e)))
      <= open_drags (snd pw) + starts (snd (step pw e)))%nat.
Proof.
  destruct pw as [props w]. cbn [snd]. intros Hk.
  rewrite ReportFacts.step_notes, ListenerFacts.step_world.
  pose proof (settles_component_event props e w Hk) as Hc.
  destruct e; try (destruct (mounted w); [exact Hc|now apply settles_skip]).
  - now apply settles_document_dispatch.
  - now apply settles_animation_frame.
  - now apply settles_unmount.
Qed.

Lemma run_settles (es : list (event num)) (pw : Props.t num * world num) :
  known_listeners (snd pw) ->
  (stops (snd (run pw es)) + open_drags (snd (fst (run pw es)))
   <= open_drags (snd pw) + starts (snd (run pw es)))%nat.
Proof.
  revert pw. induction es as [|e es IH]; intros pw Hk; [simpl; lia|].
  cbn [run]. destruct (step_settles pw e Hk) as [Hk1 H1].
  destruct (step pw e) as [pw1 n1] eqn:E1. cbn [fst snd] in *.
  specialize (IH pw1 Hk1).
  destruct (run pw1 es) as [pw2 n2]. cbn [fst snd] in *.
  rewrite starts_app, stops_app. lia.
Qed.

(** X12: on any page, at every moment, the [onDragStop] calls made so far and
    the drags whose end listener is still on the document are together no
    more than the [onDragStart] calls made so far: a drag is never stopped
    more often than it was started. *)
Theorem stops_never_exceed_starts (props : Props.t num)
        (es : list (event num)) :
  let r := run (props, initial_world) es in
  (stops (snd r) + open_drags (snd (fst r)) <= starts (snd r))%nat.
Proof.
  intros r. apply (run_settles es (props, initial_world)). intros l [].
Qed.

End Drags.
End DragFacts.

(** ** The data invariant along the life of a mounted slider *)

Module GridFacts.

Import Slider SliderSpec SliderChecks ExactFacts.

#[local] Open Scope Q_scope.




Lemma sound_same_state (props : Props.t Q) (w w' : world Q) :
  getValue w' = getValue w -> getPercent w' = getPercent w ->
  sound props w -> sound props w'.
Proof.
  unfold sound, percent_is_clamped_ratio, ratio. now intros -> ->.
Qed.







(** An action that leaves the value and the percent alone. *)
Lemma sound_kept (props : Props.t Q) (a : action Q) (w : world Q) :
  getValue (fst (a w)) = getValue w -> getPercent (fst (a w)) = getPercent w ->
  sound props w -> sound props (fst (a w)).
Proof. apply sound_same_state. Qed.













End GridFacts.
